(** * esb-bridge: the USB packet transport, its dispatcher and the ESB router

    A shallow embedding of [internal/usbprotocol/usbprotocol.go] and of
    [pkg/esbbridge/esbbridge.go].  Bytes are [Byte.byte]; a Go slice that may
    be [nil] is an [option (list byte)]; the fixed 64-byte arrays are lists
    updated by index; goroutines that block on unbuffered channels are state
    machines whose transitions are the channel rendezvous. *)

From Stdlib Require Import ZArith Lia.
From stdpp Require Import base list strings pretty.
From coqutil Require Import Byte Z.bitblast.

Local Open Scope Z_scope.

(** ** Go values shared by both packages *)

(** A byte slice; [None] is Go's [nil]. *)
Definition slice : Type := option (list byte).

(** [len(s)]: a nil slice has length 0. *)
Definition len (s : slice) : nat :=
  match s with None => 0%nat | Some l => length l end.

(** The elements of a slice ([s[:]]); a nil slice has none. *)
Definition elems (s : slice) : list byte :=
  match s with None => [] | Some l => l end.

(** Conversion of an integer to [uint16]. *)
Definition wrap16 (z : Z) : Z := z mod 2 ^ 16.

(** ** The checksum package

    Package usbprotocol computes its checksums with a third-party package,
    [crc16], whose source is not part of the repository.  Its calls are
    modelled as the table-driven CRC of the parameter set the code selects. *)

Module crc16.

Record Params : Type := mkParams {
  Poly : Z;
  Init : Z;
  XorOut : Z
}.

Record Table : Type := mkTable {
  params : Params;
  data : list Z
}.

(** Modelled from the spec: the third-party checksum package is not part of
    the repository.  The spec names the algorithm CRC-16/CCITT-FALSE:
    polynomial 0x1021, initial value 0xFFFF, input and output not
    reflected, no final xor. *)
Definition CRC16_CCITT_FALSE : Params :=
  {| Poly := 0x1021; Init := 0xFFFF; XorOut := 0x0000 |}.

(** Modelled from the spec: one table entry of an unreflected CRC, eight
    shift-and-reduce steps on a [uint16], most significant bit first. *)
Fixpoint reduce (poly : Z) (i : nat) (crc : Z) : Z :=
  match i with
  | O => crc
  | S i' =>
      let bit := Z.testbit crc 15 in
      let crc := wrap16 (Z.shiftl crc 1) in
      reduce poly i' (if bit then wrap16 (Z.lxor crc poly) else crc)
  end.

(** Modelled from the spec: the table of the 256 one-byte remainders. *)
Definition MakeTable (p : Params) : Table :=
  {| params := p;
     data := (λ n, reduce (Poly p) 8 (wrap16 (Z.shiftl n 8))) <$> seqZ 0 256 |}.

(** Modelled from the spec: the table-driven update of an unreflected CRC,
    [crc = crc<<8 ^ table.data[byte(crc>>8)^d]] for every byte [d]. *)
Definition Update (crc : Z) (bs : list byte) (t : Table) : Z :=
  foldl (λ crc d,
           let idx := Z.lxor (byte.wrap (Z.shiftr crc 8)) (byte.unsigned d) in
           wrap16 (Z.lxor (Z.shiftl crc 8) (data t !!! Z.to_nat idx)))
        crc bs.

(** Modelled from the spec: the final xor. *)
Definition Complete (crc : Z) (t : Table) : Z :=
  wrap16 (Z.lxor crc (XorOut (params t))).

(** Modelled from the spec: the checksum of a byte sequence, from the
    initial value through every byte to the final xor. *)
Definition Checksum (bs : list byte) (t : Table) : Z :=
  Complete (Update (Init (params t)) bs t) t.

End crc16.

(** [binary.LittleEndian.Uint16(b)]: [b[0] | b[1]<<8]. *)
Definition LittleEndian_Uint16 (b0 b1 : byte) : Z :=
  Z.lor (byte.unsigned b0) (Z.shiftl (byte.unsigned b1) 8).

(** ** Package usbprotocol *)

Module usbprotocol.

Definition packetSize : nat := 64.
Definition MaxPayloadLen : nat := packetSize - 4 - 2.
Definition DefaultTimeout : Z := 500.
Definition sync : byte := Byte.x69.

Definition idxSync : nat := 0.
Definition idxCmd : nat := 1.
Definition idxErr : nat := 2.
Definition idxlen : nat := 3.
Definition idxPayload : nat := 4.

(** The errors [Transfer] and [RegisterCallback] return: the five
    [UsbError] values of the package, and the error of the serial port
    package that a failed [port.Write] hands back. *)
Inductive UsbError : Type :=
| ErrSize
| ErrCmdMismatch
| ErrSerial
| ErrTimeout
| ErrParam
| ErrPort (reason : string).

(** The [ErrCode] member; an error of the serial port has none. *)
Definition ErrCode (e : UsbError) : option Z :=
  match e with
  | ErrSize => Some 1
  | ErrCmdMismatch => Some 2
  | ErrSerial => Some 3
  | ErrTimeout => Some 4
  | ErrParam => Some 5
  | ErrPort _ => None
  end.

Definition CommandID : Type := byte.
Definition CmdTest : CommandID := Byte.x61.
Definition CmdIrq : CommandID := Byte.x80.
Definition CmdRx : CommandID := Byte.x81.

Record message : Type := mkMessage {
  cmd : CommandID;
  err : byte;
  payload : list byte
}.

Definition crcTable : crc16.Table := crc16.MakeTable crc16.CRC16_CCITT_FALSE.

#[global] Instance byte_inhabited : Inhabited byte := populate Byte.x00.
#[global] Instance byte_eq_decision : EqDecision byte := Byte.byte_eq_dec.

(** *** Transfer: the outbound frame (source lines 146 to 162) *)

Definition Transfer_txBuf (cmd : CommandID) (payload : slice) : list byte :=
  let txBuf := replicate packetSize Byte.x00 in
  let txBuf := <[0%nat := sync]> txBuf in
  let txBuf := <[1%nat := cmd]> txBuf in
  let txBuf := <[2%nat := Byte.x00]> txBuf in
  let txBuf :=
    match payload with
    | None => <[3%nat := Byte.x00]> txBuf
    | Some p =>
        (* copy(txBuf[4:], payload[:]) stops at the end of the array *)
        list_inserts 4 p (<[3%nat := byte.of_Z (Z.of_nat (length p))]> txBuf)
    end in
  let crc := crc16.Checksum (take (length txBuf - 2) txBuf) crcTable in
  let h := byte.of_Z (Z.land crc 0xff) in
  let l := byte.of_Z (Z.shiftr crc 8) in
  <[63%nat := l]> (<[62%nat := h]> txBuf).

(** *** Transfer: the whole call

    [port.Write] and the [select] are the call's two contacts with its
    environment: the first is given what the port reports, the second the
    case of the [select] that fires. *)

Record write_result : Type := mkWrite {
  bytesWritten : nat;
  write_err : option UsbError
}.

Inductive select_case : Type :=
| AnsReceived (answer : message)     (* case answer := <-ansChannel *)
| TimeAfter.                         (* case <-time.After(...) *)

(** Answer-ErrorCode, Payload, error. *)
Definition result : Type := (byte * slice * option UsbError)%type.

(** Source lines 143 to 173: the size check, the frame and the write.
    [None] means the call goes on to the [select]; the second component is
    what the port has been given so far. *)
Definition Transfer_send (cmd : CommandID) (payload : slice)
    (wr : write_result) (port : list (list byte))
  : option result * list (list byte) :=
  if (MaxPayloadLen <? len payload)%nat then
    (Some (Byte.x00, None, Some ErrSize), port)
  else
    let txBuf := Transfer_txBuf cmd payload in
    let port := port ++ [take (bytesWritten wr) txBuf] in
    match write_err wr with
    | Some e => (Some (Byte.x00, None, Some e), port)
    | None =>
        if negb (bytesWritten wr =? length txBuf)%nat then
          (Some (Byte.x00, None, Some ErrSerial), port)
        else (None, port)
    end.

(** Source lines 176 to 189. *)
Definition Transfer_select (cmd : CommandID) (ev : select_case) : result :=
  match ev with
  | AnsReceived answer =>
      if negb (Byte.eqb (usbprotocol.cmd answer) cmd) then
        (Byte.x00, None, Some ErrCmdMismatch)
      else
        (err answer, Some (payload answer), None)
  | TimeAfter => (Byte.x00, None, Some ErrTimeout)
  end.

Definition Transfer (cmd : CommandID) (payload : slice)
    (wr : write_result) (ev : select_case) (port : list (list byte))
  : result * list (list byte) :=
  match Transfer_send cmd payload wr port with
  | (Some r, port) => (r, port)
  | (None, port) => (Transfer_select cmd ev, port)
  end.

(** *** serialReaderThread: one turn of the loop

    [port.Read] fills the front of a fresh, zeroed [rxBuf] with the bytes
    it got and reports their number and an error. *)

Inductive reader_turn : Type :=
| Skipped                       (* [continue], or [port == nil] *)
| Published (m : message)       (* [rxChannel <- message{...}] *)
| SliceOutOfRange.              (* run-time panic of the slice expression *)

Definition serialReaderThread_turn (port_set : bool)
    (read : list byte) (read_err : option UsbError) : reader_turn :=
  let rxBuf := replicate packetSize Byte.x00 in
  if port_set then
    let got := take packetSize read in
    let bytesRead := length got in
    let rxBuf := list_inserts 0 got rxBuf in
    if bool_decide (is_Some read_err) || negb (bytesRead =? packetSize)%nat then
      Skipped
    else if negb (Byte.eqb (rxBuf !!! idxSync) sync) then
      Skipped
    else
      let crcCalc := crc16.Checksum (take (packetSize - 2) rxBuf) crcTable in
      let crcRx :=
        LittleEndian_Uint16 (rxBuf !!! (packetSize - 2)%nat)
                            (rxBuf !!! (packetSize - 1)%nat) in
      if negb (crcCalc =? crcRx) then
        Skipped
      else
        let payloadLen := rxBuf !!! 3%nat in
        (* idxPayload+payloadLen is uint8 arithmetic *)
        let high := byte.wrap (Z.of_nat idxPayload + byte.unsigned payloadLen) in
        if (Z.of_nat idxPayload <=? high) && (high <=? Z.of_nat packetSize) then
          Published
            {| cmd := rxBuf !!! idxCmd;
               err := rxBuf !!! idxErr;
               payload := take (Z.to_nat high - idxPayload)
                               (drop idxPayload rxBuf) |}
        else SliceOutOfRange
  else Skipped.

(** *** receive: the dispatcher goroutine

    A callback function is known by a name of type [F]; calling it is
    recorded.  The goroutine rests either in its [select] or in the send
    [ansChannel <- msg]; both channels are unbuffered, so each transition
    below is a rendezvous with the goroutine on the other side. *)

Section receive.
Context {F : Type}.

(** The [callback] struct; a nil [cbFunc] is [None]. *)
Record callback : Type := mkCallback {
  cb_cmd : CommandID;
  cbFunc : option F
}.

Inductive call : Type :=
| Call (f : F) (err : byte) (payload : list byte).

Inductive receive_at : Type :=
| AtSelect
| AtAnsSend (msg : message).

(** [callbacks] holds only entries whose function is not nil (line 200),
    so an entry is kept as command and function name. *)
Record receive_state : Type := mkReceive {
  callbacks : list (CommandID * F);
  at_ : receive_at
}.

(** The loop of lines 205 to 212: the calls made and [isAnswer]. *)
Fixpoint receive_range (cbs : list (CommandID * F)) (msg : message)
    (isAnswer : bool) : list call * bool :=
  match cbs with
  | [] => ([], isAnswer)
  | cb :: cbs =>
      if Byte.eqb cb.1 (cmd msg) then
        let '(calls, isAnswer) := receive_range cbs msg false in
        (Call cb.2 (err msg) (payload msg) :: calls, isAnswer)
      else receive_range cbs msg isAnswer
  end.

(** [case tempCallback := <-regCallbackChannel] *)
Definition receive_register (cb : callback) (st : receive_state)
  : option receive_state :=
  match at_ st with
  | AtSelect =>
      Some match cbFunc cb with
           | Some f => {| callbacks := callbacks st ++ [(cb_cmd cb, f)];
                          at_ := AtSelect |}
           | None => st
           end
  | AtAnsSend _ => None
  end.

(** [case msg := <-rxChannel] *)
Definition receive_rx (msg : message) (st : receive_state)
  : option (list call * receive_state) :=
  match at_ st with
  | AtSelect =>
      let '(calls, isAnswer) := receive_range (callbacks st) msg true in
      Some (calls,
            {| callbacks := callbacks st;
               at_ := if isAnswer then AtAnsSend msg else AtSelect |})
  | AtAnsSend _ => None
  end.

(** [ansChannel <- msg] once a [Transfer] receives from [ansChannel] *)
Definition receive_ans (st : receive_state)
  : option (message * receive_state) :=
  match at_ st with
  | AtAnsSend msg => Some (msg, {| callbacks := callbacks st; at_ := AtSelect |})
  | AtSelect => None
  end.

(** [RegisterCallback]: [None] in the second component when the send on
    [regCallbackChannel] finds [receive] not in its [select]. *)
Definition RegisterCallback (cmd : CommandID) (f : option F)
    (st : receive_state) : option UsbError * option receive_state :=
  match f with
  | None => (Some ErrParam, Some st)
  | Some _ => (None, receive_register {| cb_cmd := cmd; cbFunc := f |} st)
  end.

(** *** The goroutines together

    Every caller of [Transfer] is a goroutine at one of three places. *)
Inductive caller : Type :=
| Called (cmd : CommandID) (payload : slice)
| InSelect (cmd : CommandID)
| Returned (r : result).

Record system : Type := mkSystem {
  port : list (list byte);
  dispatcher : receive_state;
  callers : list caller;
  called : list call
}.

Inductive label : Type :=
| LCall (cmd : CommandID) (payload : slice)   (* a goroutine enters Transfer *)
| LSend (i : nat) (wr : write_result)         (* caller i: lines 143 to 173 *)
| LAnswer (i : nat)                           (* ansChannel: receive -> caller i *)
| LTimeout (i : nat)                          (* caller i: time.After fires *)
| LRx (msg : message)                         (* rxChannel: reader -> receive *)
| LRegister (cb : callback).                  (* regCallbackChannel -> receive *)

Definition step (l : label) (s : system) : option system :=
  match l with
  | LCall c p =>
      Some {| port := port s; dispatcher := dispatcher s;
              callers := callers s ++ [Called c p]; called := called s |}
  | LSend i wr =>
      match callers s !! i with
      | Some (Called c p) =>
          let '(r, port') := Transfer_send c p wr (port s) in
          Some {| port := port'; dispatcher := dispatcher s;
                  callers := <[i := match r with
                                    | Some r => Returned r
                                    | None => InSelect c
                                    end]> (callers s);
                  called := called s |}
      | _ => None
      end
  | LAnswer i =>
      match callers s !! i, receive_ans (dispatcher s) with
      | Some (InSelect c), Some (answer, d) =>
          Some {| port := port s; dispatcher := d;
                  callers := <[i := Returned (Transfer_select c (AnsReceived answer))]>
                               (callers s);
                  called := called s |}
      | _, _ => None
      end
  | LTimeout i =>
      match callers s !! i with
      | Some (InSelect c) =>
          Some {| port := port s; dispatcher := dispatcher s;
                  callers := <[i := Returned (Transfer_select c TimeAfter)]>
                               (callers s);
                  called := called s |}
      | _ => None
      end
  | LRx msg =>
      match receive_rx msg (dispatcher s) with
      | Some (calls, d) =>
          Some {| port := port s; dispatcher := d;
                  callers := callers s; called := called s ++ calls |}
      | None => None
      end
  | LRegister cb =>
      match receive_register cb (dispatcher s) with
      | Some d =>
          Some {| port := port s; dispatcher := d;
                  callers := callers s; called := called s |}
      | None => None
      end
  end.

Fixpoint run (ls : list label) (s : system) : option system :=
  match ls with
  | [] => Some s
  | l :: ls =>
      match step l s with
      | Some s => run ls s
      | None => None
      end
  end.

(** The callers that hold a pending transaction. *)
Definition pending (s : system) : list nat :=
  omap (λ '(i, c), match c with InSelect _ => Some i | _ => None end)
       (imap pair (callers s)).

(** After [Open]: no callback, nothing written, nobody in [Transfer]. *)
Definition opened : system :=
  {| port := []; dispatcher := {| callbacks := []; at_ := AtSelect |};
     callers := []; called := [] |}.

End receive.

Arguments callback : clear implicits.
Arguments call : clear implicits.
Arguments receive_state : clear implicits.
Arguments system : clear implicits.
Arguments label : clear implicits.

End usbprotocol.


(** [bytes.Compare(a, b)] of Go's standard library: the lexicographic order
    of two byte slices as -1, 0 or +1. *)
Fixpoint bytes_Compare (a b : list byte) : Z :=
  match a, b with
  | [], [] => 0
  | [], _ :: _ => -1
  | _ :: _, [] => 1
  | x :: a, y :: b =>
      if byte.unsigned x <? byte.unsigned y then -1
      else if byte.unsigned y <? byte.unsigned x then 1
      else bytes_Compare a b
  end.

(** ** Package esbbridge *)

Module esbbridge.

Definition AddressSize : nat := 5.
Definition MaxPayloadSize : nat := 32.

Definition UsbCmdVersion : usbprotocol.CommandID := Byte.x10.
Definition UsbCmdTransfer : usbprotocol.CommandID := Byte.x30.
Definition UsbCmdSend : usbprotocol.CommandID := Byte.x31.
Definition UsbCmdRx : usbprotocol.CommandID := Byte.x81.

(** Modelled from the spec: the package is written against a revision of
    usbprotocol whose calls take and return a [Message] value; that
    revision is not among the sources.  A message carries the command
    identifier, the status byte and the payload of one packet. *)
Record Message : Type := mkMessage {
  Cmd : usbprotocol.CommandID;
  Err : byte;
  Payload : slice
}.

(** [usbprotocol.Message{}] *)
Definition Message_zero : Message :=
  {| Cmd := Byte.x00; Err := Byte.x00; Payload := None |}.

(** A pipeline address, [[AddressSize]byte]. *)
Record addr : Type := mkAddr { a0 : byte; a1 : byte; a2 : byte; a3 : byte; a4 : byte }.

(** [a[:]] *)
Definition addr_slice (a : addr) : list byte := [a0 a; a1 a; a2 a; a3 a; a4 a].

Record EsbMessage : Type := mkEsbMessage {
  address : slice;
  cmd : byte;
  payload : slice
}.

(** The error values the package builds with [errors.New] and
    [fmt.Errorf], and the errors of usbprotocol it hands on. *)
Inductive error : Type :=
| ErrOpen (device : string) (e : usbprotocol.UsbError)
    (* "Could not connect to device %v: %v" *)
| ErrNotConnected
    (* "Device is not connected, call Open() first" *)
| ErrVersionAnswer (code : byte)
    (* "Command CmdVersion (0x%02X) returned Error 0x%02X" *)
| ErrPayloadNil
    (* "Payload must not be empty" *)
| ErrPayloadTooLong
    (* "Payload too long, maximum is %v" *)
| ErrPayloadTooShort
    (* "Payload too short, minimum is 6 (5bytes address, at least 1 byte payload)" *)
| ErrTransferAnswer (code : byte)
    (* "ESB Transfer command returned with error code: 0x%02X" *)
| ErrChannelNil
    (* "invalid parameter passed for listener channel (nil)" *)
| ErrUsb (e : usbprotocol.UsbError).

(** A call that may end in a run-time panic. *)
Inductive go (A : Type) : Type :=
| Ret (a : A)
| Panic.
Arguments Ret {A} a.
Arguments Panic {A}.

(** What the package asks of usbprotocol, in order. *)
Inductive usb_call : Type :=
| UsbOpen (device : string)
| UsbAddListener (cmd : usbprotocol.CommandID)
| UsbClose
| UsbTransfer (txMsg : Message).

Section esbbridge.
(** A listener channel is known by a name of type [C]. *)
Context {C : Type}.

(** The answers of package usbprotocol. *)
Variable usb_Open : string → option usbprotocol.UsbError.
Variable usb_AddListener : usbprotocol.CommandID → option usbprotocol.UsbError.
Variable usb_Transfer : Message → Message * option usbprotocol.UsbError.

(** [listeners] holds only entries whose channel is not nil
    ([AddListener] refuses a nil channel). *)
Record listener : Type := mkListener {
  sourceAddr : addr;
  l_cmd : byte;
  channel : C
}.

(** The package variables, and the calls made to usbprotocol. *)
Record state : Type := mkState {
  connected : bool;
  listeners : list listener;
  usb : list usb_call
}.

Definition initial : state :=
  {| connected := false; listeners := []; usb := [] |}.

Definition asked (c : usb_call) (st : state) : state :=
  {| connected := connected st; listeners := listeners st; usb := usb st ++ [c] |}.

Definition Open (device : string) (st : state) : option error * state :=
  let st := asked (UsbOpen device) st in
  match usb_Open device with
  | Some e => (Some (ErrOpen device e), st)
  | None =>
      let st := {| connected := true; listeners := listeners st; usb := usb st |} in
      let st := asked (UsbAddListener usbprotocol.CmdRx) st in
      (* go rxCallbackThread(rxChannel) *)
      (ErrUsb <$> usb_AddListener usbprotocol.CmdRx, st)
  end.

Definition Close (st : state) : state := asked UsbClose st.

Definition GetFwVersion (st : state) : go (string * option error) * state :=
  if negb (connected st) then (Ret (""%string, Some ErrNotConnected), st)
  else
    let txMsg := {| Cmd := UsbCmdVersion; Err := Err Message_zero;
                    Payload := Payload Message_zero |} in
    let st := asked (UsbTransfer txMsg) st in
    let '(answerMessage, err) := usb_Transfer txMsg in
    if negb (Byte.eqb (Err answerMessage) Byte.x00) then
      (Ret (""%string, Some (ErrVersionAnswer (Err answerMessage))), st)
    else
      match err with
      | Some e => (Ret (""%string, Some (ErrUsb e)), st)
      | None =>
          match elems (Payload answerMessage) with
          | v0 :: v1 :: v2 :: _ =>
              (Ret ((pretty (byte.unsigned v0) +:+ "." +:+
                     pretty (byte.unsigned v1) +:+ "." +:+
                     pretty (byte.unsigned v2))%string, None), st)
          | _ => (Panic, st)     (* index out of range *)
          end
      end.

Definition Transfer (targetAddr : addr) (payload : slice) (st : state)
  : (slice * option error) * state :=
  if negb (connected st) then ((None, Some ErrNotConnected), st)
  else
    match payload with
    | None => ((None, Some ErrPayloadNil), st)
    | Some p =>
        if (MaxPayloadSize <? length p)%nat then
          ((None, Some ErrPayloadTooLong), st)
        else if (length p <? 1)%nat then
          ((None, Some ErrPayloadTooShort), st)
        else
          let txMsg := {| Cmd := UsbCmdTransfer; Err := Err Message_zero;
                          Payload := Some ((elems (Payload Message_zero)
                                            ++ addr_slice targetAddr) ++ p) |} in
          let st := asked (UsbTransfer txMsg) st in
          let '(answerMessage, err) := usb_Transfer txMsg in
          if negb (Byte.eqb (Err answerMessage) Byte.x00) then
            ((None, Some (ErrTransferAnswer (Err answerMessage))), st)
          else
            match err with
            | Some e => ((None, Some (ErrUsb e)), st)
            | None => ((Payload answerMessage, None), st)
            end
    end.

Definition AddListener (sourceAddr : addr) (cmd : byte) (c : option C)
    (st : state) : option error * state :=
  match c with
  | None => (Some ErrChannelNil, st)
  | Some c =>
      (None,
       {| connected := connected st;
          listeners := listeners st
                       ++ [{| sourceAddr := sourceAddr; l_cmd := cmd; channel := c |}];
          usb := usb st |})
  end.

(** The loop over [listeners] of lines 186 to 191: the sends
    [l.channel <- message], in order. *)
Fixpoint rxCallback_range (ls : list listener) (message : EsbMessage)
  : list (C * EsbMessage) :=
  match ls with
  | [] => []
  | l :: ls =>
      if (Byte.eqb (l_cmd l) Byte.xff || Byte.eqb (l_cmd l) (cmd message))
         && ((bytes_Compare (addr_slice (sourceAddr l)) (elems (address message)) =? 0)
             || (bytes_Compare (addr_slice (sourceAddr l)) (replicate 5 Byte.x00) =? 0))
      then (channel l, message) :: rxCallback_range ls message
      else rxCallback_range ls message
  end.

(** The envelope of lines 176 to 183, taken from a payload of at least
    six bytes. *)
Definition rxCallback_message (usbMsg : Message) : EsbMessage :=
  let p := elems (Payload usbMsg) in
  {| address := Some (take 5 p);
     cmd := p !!! 5%nat;
     payload := if (6 <? len (Payload usbMsg))%nat then Some (drop 6 p) else None |}.

(** One turn of the loop of [rxCallbackThread]; [None] is its [return]. *)
Definition rxCallback_turn (ls : list listener) (usbMsg : Message)
  : option (list (C * EsbMessage)) :=
  if (len (Payload usbMsg) <? 6)%nat then None
  else Some (rxCallback_range ls (rxCallback_message usbMsg)).

(** [rxCallbackThread] on the messages its channel yields, with the
    listeners registered: all the sends it makes. *)
Fixpoint rxCallbackThread (ls : list listener) (ch : list Message)
  : list (C * EsbMessage) :=
  match ch with
  | [] => []
  | usbMsg :: ch =>
      match rxCallback_turn ls usbMsg with
      | None => []
      | Some sends => sends ++ rxCallbackThread ls ch
      end
  end.

End esbbridge.

Arguments listener : clear implicits.
Arguments state : clear implicits.

End esbbridge.

(** ** The server (cmd/server/main.go) *)

Module server.

(** The [Listener] message of [esbbridge_rpc.proto]; a [bytes] field is a
    byte slice, empty when absent. *)
Record Listener : Type := mkListener {
  l_Addr : list byte;
  l_Cmd : list byte
}.

(** The [EsbMessage] message of [esbbridge_rpc.proto]. *)
Record EsbMessage : Type := mkEsbMessage {
  m_Addr : list byte;
  m_Cmd : list byte;
  m_Error : list byte;
  m_Payload : list byte
}.

(** [Transfer]: "simple echo for now". *)
Definition Transfer (msg : EsbMessage) : EsbMessage :=
  {| m_Addr := m_Addr msg; m_Cmd := m_Cmd msg; m_Error := [];
     m_Payload := m_Payload msg |}.

(** [listenAddr := [5]byte{}; copy(listenAddr[:5], listener.Addr)] *)
Definition listenAddr (a : list byte) : esbbridge.addr :=
  let arr := list_inserts 0 a (replicate 5 Byte.x00) in
  {| esbbridge.a0 := arr !!! 0%nat; esbbridge.a1 := arr !!! 1%nat;
     esbbridge.a2 := arr !!! 2%nat; esbbridge.a3 := arr !!! 3%nat;
     esbbridge.a4 := arr !!! 4%nat |}.

Section server.
(** A listener channel is known by a name of type [C]; an error of the
    stream has type [E]. *)
Context {C E : Type}.

(** What [messageStream.Send] answers. *)
Variable stream_Send : EsbMessage → option E.

(** How a call of [Listen] ends: it returns, or it waits for ever in the
    receive [msg := <-lc]. *)
Inductive listen_end : Type :=
| ListenReturned (e : option E)
| ListenWaiting.

(** The message handed to the stream for one incoming message. *)
Definition Listen_message (msg : esbbridge.EsbMessage) : EsbMessage :=
  {| m_Addr := elems (esbbridge.address msg);
     m_Cmd := [esbbridge.cmd msg];
     m_Error := [];
     m_Payload := elems (esbbridge.payload msg) |}.

(** The loop of [Listen] with [todo] turns left, on the messages that
    arrive on [lc]: the messages handed to the stream, and the end. *)
Fixpoint Listen_loop (todo : nat) (lc : list esbbridge.EsbMessage)
  : list EsbMessage * listen_end :=
  match todo with
  | O => ([], ListenReturned None)
  | S todo =>
      match lc with
      | [] => ([], ListenWaiting)
      | msg :: lc =>
          let out := Listen_message msg in
          match stream_Send out with
          | Some e => ([out], ListenReturned (Some e))
          | None =>
              let '(sent, r) := Listen_loop todo lc in
              (out :: sent, r)
          end
      end
  end.

(** [Listen]: [ch] names the channel the call makes, [lc] is what arrives
    on it. *)
Definition Listen (listener : Listener) (ch : C) (lc : list esbbridge.EsbMessage)
    (st : esbbridge.state C)
  : esbbridge.go (list EsbMessage * listen_end) * esbbridge.state C :=
  match l_Cmd listener with
  | [] => (esbbridge.Panic, st)          (* listener.Cmd[0]: index out of range *)
  | c :: _ =>
      let st := (esbbridge.AddListener (listenAddr (l_Addr listener)) c (Some ch) st).2 in
      (esbbridge.Ret (Listen_loop 3 lc), st)
  end.

End server.

End server.

(** * Vocabulary of the statements *)

(** The first 62 bytes of a request frame as the wire format lays them out:
    sync, command, status 0, length, the payload, zero padding. *)
Definition frame_head (cmd : usbprotocol.CommandID) (payload : slice) : list byte :=
  [usbprotocol.sync; cmd; Byte.x00; byte.of_Z (Z.of_nat (len payload))]
  ++ elems payload ++ replicate (usbprotocol.MaxPayloadLen - len payload) Byte.x00.

(** A full write of one frame without error. *)
Definition written : usbprotocol.write_result :=
  {| usbprotocol.bytesWritten := usbprotocol.packetSize;
     usbprotocol.write_err := None |}.

(** Two inbound frames with sync byte and matching checksum whose length
    byte is 200 and 59. *)
Definition frame_len200 : list byte :=
  [Byte.x69; Byte.x61; Byte.x00; Byte.xc8] ++ replicate 58 Byte.x00 ++ [Byte.x11; Byte.x5f].

Definition frame_len59 : list byte :=
  [Byte.x69; Byte.x61; Byte.x00; Byte.x3b] ++ replicate 58 Byte.x00 ++ [Byte.x71; Byte.x9a].

(** A listener matches an envelope when its source filter is the all-zero
    wildcard or equals the envelope's source address, and its command filter
    is the wildcard 0xFF or equals the envelope's command byte. *)
Definition listener_matches {C} (l : esbbridge.listener C)
    (m : esbbridge.EsbMessage) : Prop :=
  (esbbridge.addr_slice (esbbridge.sourceAddr l) = replicate 5 Byte.x00
   ∨ esbbridge.addr_slice (esbbridge.sourceAddr l) = elems (esbbridge.address m))
  ∧ (esbbridge.l_cmd l = Byte.xff ∨ esbbridge.l_cmd l = esbbridge.cmd m).

#[global] Instance listener_matches_dec {C} (l : esbbridge.listener C) m :
  Decision (listener_matches l m) := and_dec _ _.

(** A device link that opens, and a device that answers every request with
    status 0 and the payload 1, 2, 3. *)
Definition usb_Open_ok (device : string) : option usbprotocol.UsbError := None.
Definition usb_AddListener_ok (c : usbprotocol.CommandID)
  : option usbprotocol.UsbError := None.
Definition usb_Transfer_ok (txMsg : esbbridge.Message)
  : esbbridge.Message * option usbprotocol.UsbError :=
  ({| esbbridge.Cmd := esbbridge.Cmd txMsg; esbbridge.Err := Byte.x00;
      esbbridge.Payload := Some [Byte.x01; Byte.x02; Byte.x03] |}, None).

(** The package state after [Open("/dev/ttyACM0")] has succeeded and
    [Close()] has been called. *)
Definition opened_then_closed : esbbridge.state nat :=
  esbbridge.Close
    (esbbridge.Open usb_Open_ok usb_AddListener_ok "/dev/ttyACM0" esbbridge.initial).2.

(** The package state after [Open("/dev/ttyACM0")] has succeeded. *)
Definition opened_state : esbbridge.state nat :=
  (esbbridge.Open usb_Open_ok usb_AddListener_ok "/dev/ttyACM0" esbbridge.initial).2.

Definition testPipelineAddress : esbbridge.addr :=
  {| esbbridge.a0 := Byte.x6f; esbbridge.a1 := Byte.x6f; esbbridge.a2 := Byte.x6f;
     esbbridge.a3 := Byte.x6f; esbbridge.a4 := Byte.x01 |}.

Definition addr_zero : esbbridge.addr :=
  {| esbbridge.a0 := Byte.x00; esbbridge.a1 := Byte.x00; esbbridge.a2 := Byte.x00;
     esbbridge.a3 := Byte.x00; esbbridge.a4 := Byte.x00 |}.

Definition addr_12345 : esbbridge.addr :=
  {| esbbridge.a0 := Byte.x01; esbbridge.a1 := Byte.x02; esbbridge.a2 := Byte.x03;
     esbbridge.a3 := Byte.x04; esbbridge.a4 := Byte.x05 |}.

(** Listeners on channels 1, 2 and 3: every message; command 0x05 from any
    address; any command from address 1, 2, 3, 4, 5. *)
Definition listen_all : esbbridge.listener nat :=
  {| esbbridge.sourceAddr := addr_zero; esbbridge.l_cmd := Byte.xff;
     esbbridge.channel := 1%nat |}.

Definition listen_cmd05 : esbbridge.listener nat :=
  {| esbbridge.sourceAddr := addr_zero; esbbridge.l_cmd := Byte.x05;
     esbbridge.channel := 2%nat |}.

Definition listen_addr12345 : esbbridge.listener nat :=
  {| esbbridge.sourceAddr := addr_12345; esbbridge.l_cmd := Byte.xff;
     esbbridge.channel := 3%nat |}.

(** An inbound receive notification carrying the envelope of a message with
    the given source address, command and payload. *)
Definition rx_packet (source : list byte) (c : byte) (p : list byte)
  : esbbridge.Message :=
  {| esbbridge.Cmd := esbbridge.UsbCmdRx; esbbridge.Err := Byte.x00;
     esbbridge.Payload := Some (source ++ c :: p) |}.

(** A receive notification whose payload has three bytes only. *)
Definition short_packet : esbbridge.Message :=
  {| esbbridge.Cmd := esbbridge.UsbCmdRx; esbbridge.Err := Byte.x00;
     esbbridge.Payload := Some [Byte.x01; Byte.x02; Byte.x03] |}.

Definition good_packet : esbbridge.Message :=
  rx_packet [Byte.x01; Byte.x02; Byte.x03; Byte.x04; Byte.x05] Byte.x05 [Byte.x2a].

(** Replies of the device: to a version request, and to two ESB transfers. *)
Definition version_reply : usbprotocol.message :=
  {| usbprotocol.cmd := Byte.x10; usbprotocol.err := Byte.x00;
     usbprotocol.payload := [Byte.x01; Byte.x02; Byte.x03] |}.

Definition transfer_reply : usbprotocol.message :=
  {| usbprotocol.cmd := Byte.x30; usbprotocol.err := Byte.x00;
     usbprotocol.payload := [Byte.x07] |}.

Definition reply_to_first : usbprotocol.message :=
  {| usbprotocol.cmd := Byte.x30; usbprotocol.err := Byte.x00;
     usbprotocol.payload := [Byte.xaa] |}.

(** A caller waits for the answer to a version request while [receive]
    offers the reply to an ESB transfer. *)
Definition stale_reply_offered : usbprotocol.system nat :=
  {| usbprotocol.port := [];
     usbprotocol.dispatcher :=
       {| usbprotocol.callbacks := [];
          usbprotocol.at_ := usbprotocol.AtAnsSend transfer_reply |};
     usbprotocol.callers := [usbprotocol.InSelect Byte.x10];
     usbprotocol.called := [] |}.

(** One caller is pending and a second one has just entered [Transfer]. *)
Definition second_caller_enters : usbprotocol.system nat :=
  {| usbprotocol.port := [usbprotocol.Transfer_txBuf Byte.x30 (Some [Byte.x01])];
     usbprotocol.dispatcher :=
       {| usbprotocol.callbacks := []; usbprotocol.at_ := usbprotocol.AtSelect |};
     usbprotocol.callers :=
       [usbprotocol.InSelect Byte.x30; usbprotocol.Called Byte.x30 (Some [Byte.x02])];
     usbprotocol.called := [] |}.

(** What [serialReaderThread] checks on the bytes of one read before it
    looks at the length byte: no read error, a full packet, the sync byte,
    the checksum. *)
Definition frame_checked (f : list byte) (read_err : option usbprotocol.UsbError) : Prop :=
  read_err = None
  ∧ length f = usbprotocol.packetSize
  ∧ f !! 0%nat = Some usbprotocol.sync
  ∧ crc16.Checksum (take 62 f) usbprotocol.crcTable
    = LittleEndian_Uint16 (f !!! 62%nat) (f !!! 63%nat).

(** The calls of package esbbridge, to run one after the other. *)
Inductive api_call {C : Type} : Type :=
| CallOpen (device : string)
| CallClose
| CallGetFwVersion
| CallTransfer (targetAddr : esbbridge.addr) (payload : slice)
| CallAddListener (sourceAddr : esbbridge.addr) (cmd : byte) (c : option C).
Arguments api_call : clear implicits.

(** The package state after a sequence of calls, given the answers of
    usbprotocol. *)
Fixpoint api_run {C : Type}
    (usb_Open : string → option usbprotocol.UsbError)
    (usb_AddListener : usbprotocol.CommandID → option usbprotocol.UsbError)
    (usb_Transfer : esbbridge.Message → esbbridge.Message * option usbprotocol.UsbError)
    (calls : list (api_call C)) (st : esbbridge.state C) : esbbridge.state C :=
  match calls with
  | [] => st
  | call :: calls =>
      api_run usb_Open usb_AddListener usb_Transfer calls
        match call with
        | CallOpen device => (esbbridge.Open usb_Open usb_AddListener device st).2
        | CallClose => esbbridge.Close st
        | CallGetFwVersion => (esbbridge.GetFwVersion usb_Transfer st).2
        | CallTransfer a p => (esbbridge.Transfer usb_Transfer a p st).2
        | CallAddListener a c ch => (esbbridge.AddListener a c ch st).2
        end
  end.

(** A callback for receive notifications is registered and [receive] is in
    its [select]. *)
Definition one_callback : usbprotocol.system nat :=
  {| usbprotocol.port := [];
     usbprotocol.dispatcher :=
       {| usbprotocol.callbacks := [(Byte.x81, 7%nat)];
          usbprotocol.at_ := usbprotocol.AtSelect |};
     usbprotocol.callers := [];
     usbprotocol.called := [] |}.

(** A caller waits for the answer to a version request and nothing has come
    in yet. *)
Definition waiting_for_version : usbprotocol.system nat :=
  {| usbprotocol.port := [usbprotocol.Transfer_txBuf Byte.x10 None];
     usbprotocol.dispatcher :=
       {| usbprotocol.callbacks := []; usbprotocol.at_ := usbprotocol.AtSelect |};
     usbprotocol.callers := [usbprotocol.InSelect Byte.x10];
     usbprotocol.called := [] |}.

(** * Properties *)

(** The check value of CRC-16/CCITT-FALSE: the checksum of the ASCII digits
    1 to 9. *)
Example crc16_check_value :
  crc16.Checksum
    [Byte.x31; Byte.x32; Byte.x33; Byte.x34; Byte.x35; Byte.x36; Byte.x37; Byte.x38; Byte.x39]
    usbprotocol.crcTable = 0x29B1.
Proof. vm_compute. reflexivity. Qed.

Import usbprotocol.

(** ** Bytes and 16-bit words *)

Lemma wrap16_range z : 0 <= wrap16 z < 2 ^ 16.
Proof. unfold wrap16. apply Z.mod_pos_bound. reflexivity. Qed.

Lemma Checksum_range bs t : 0 <= crc16.Checksum bs t < 2 ^ 16.
Proof. unfold crc16.Checksum, crc16.Complete. apply wrap16_range. Qed.

Lemma unsigned_of_Z_small z : 0 <= z < 256 -> byte.unsigned (byte.of_Z z) = z.
Proof.
  intros Hz. rewrite byte.unsigned_of_Z. unfold byte.wrap.
  apply Z.mod_small. lia.
Qed.

(** The two checksum bytes written by [Transfer] are read back by
    [binary.LittleEndian.Uint16] as the checksum. *)
Lemma LittleEndian_Uint16_split crc :
  0 <= crc < 2 ^ 16 ->
  LittleEndian_Uint16 (byte.of_Z (Z.land crc 0xff)) (byte.of_Z (Z.shiftr crc 8)) = crc.
Proof.
  intros Hc. unfold LittleEndian_Uint16.
  assert (Hlo : 0 <= Z.land crc 255 < 256).
  { change 255 with (Z.ones 8). rewrite Z.land_ones by lia.
    apply Z.mod_pos_bound. lia. }
  assert (Hhi : 0 <= Z.shiftr crc 8 < 256).
  { rewrite Z.shiftr_div_pow2 by lia. split.
    - apply Z.div_pos; lia.
    - apply Z.div_lt_upper_bound; lia. }
  rewrite !unsigned_of_Z_small by assumption.
  apply Z.bits_inj'. intros n Hn.
  rewrite Z.lor_spec, Z.land_spec.
  destruct (Z.lt_ge_cases n 8) as [Hlt | Hge].
  - rewrite Z.shiftl_spec_low by assumption.
    change 255 with (Z.ones 8). rewrite Z.ones_spec_low by lia.
    rewrite orb_false_r, andb_true_r. reflexivity.
  - rewrite Z.shiftl_spec by lia. rewrite Z.shiftr_spec by lia.
    change 255 with (Z.ones 8). rewrite Z.ones_spec_high by lia.
    rewrite andb_false_r. simpl. f_equal. lia.
Qed.

Lemma list_inserts_replicate (p : list byte) n :
  (length p ≤ n)%nat →
  list_inserts 0 p (replicate n Byte.x00) = p ++ replicate (n - length p) Byte.x00.
Proof.
  intros Hn.
  replace n with (length p + (n - length p))%nat at 1 by lia.
  rewrite replicate_add.
  apply list_inserts_0_r. by rewrite length_replicate.
Qed.

Lemma frame_head_length cmd payload :
  (len payload ≤ MaxPayloadLen)%nat → length (frame_head cmd payload) = 62%nat.
Proof.
  intros Hn. unfold frame_head.
  rewrite !length_app, length_replicate.
  change (length [sync; cmd; Byte.x00; byte.of_Z (Z.of_nat (len payload))]) with 4%nat.
  change MaxPayloadLen with 58%nat in *.
  destruct payload; simpl in *; lia.
Qed.

Lemma Transfer_txBuf_layout cmd payload :
  (len payload ≤ MaxPayloadLen)%nat →
  Transfer_txBuf cmd payload =
    let crc := crc16.Checksum (frame_head cmd payload) crcTable in
    frame_head cmd payload
      ++ [byte.of_Z (Z.land crc 0xff); byte.of_Z (Z.shiftr crc 8)].
Proof.
  intros Hn.
  assert (Hbuf : match payload with
      | None => <[3%nat := Byte.x00]> (<[2%nat := Byte.x00]> (<[1%nat := cmd]> (<[0%nat := sync]> (replicate packetSize Byte.x00))))
      | Some p =>
          list_inserts 4 p (<[3%nat := byte.of_Z (Z.of_nat (length p))]> (<[2%nat := Byte.x00]> (<[1%nat := cmd]> (<[0%nat := sync]> (replicate packetSize Byte.x00)))))
      end = frame_head cmd payload ++ [Byte.x00; Byte.x00]).
  { destruct payload as [p|]; [|reflexivity].
    change MaxPayloadLen with 58%nat in Hn. simpl in Hn.
    unfold frame_head.
    change (<[3%nat:=?b]> _) with ([sync; cmd; Byte.x00; b] ++ replicate 60 Byte.x00).
    change 4%nat with (length [sync; cmd; Byte.x00; byte.of_Z (Z.of_nat (length p))] + 0)%nat at 1.
    rewrite list_inserts_app_r.
    rewrite list_inserts_replicate by lia.
    simpl. do 4 f_equal. rewrite <- app_assoc. f_equal.
    change MaxPayloadLen with 58%nat.
    replace (60 - length p)%nat with ((58 - length p) + 2)%nat by lia.
    by rewrite replicate_add. }
  unfold Transfer_txBuf. cbv zeta. rewrite Hbuf.
  pose proof (frame_head_length cmd payload Hn) as Hlen.
  rewrite length_app, Hlen. simpl length.
  replace (62 + 2 - 2)%nat with (length (frame_head cmd payload) + 0)%nat by lia.
  rewrite take_app_add, take_0, app_nil_r.
  set (crc := crc16.Checksum _ _).
  rewrite !insert_app_r_alt by (rewrite ?length_insert, ?length_app, Hlen; simpl; lia).
  rewrite Hlen. reflexivity.
Qed.

Lemma Transfer_txBuf_length cmd payload :
  (len payload ≤ MaxPayloadLen)%nat → length (Transfer_txBuf cmd payload) = packetSize.
Proof.
  intros Hn. rewrite Transfer_txBuf_layout by assumption. cbv zeta.
  rewrite length_app, frame_head_length by assumption. reflexivity.
Qed.

Lemma len_byte payload :
  (len payload ≤ MaxPayloadLen)%nat →
  byte.unsigned (byte.of_Z (Z.of_nat (len payload))) = Z.of_nat (len payload).
Proof.
  intros Hn. change MaxPayloadLen with 58%nat in Hn.
  apply unsigned_of_Z_small. lia.
Qed.

Lemma reader_accepts (c e n : byte) (body : list byte) port_err :
  let crc := crc16.Checksum ([sync; c; e; n] ++ body) crcTable in
  length body = MaxPayloadLen →
  port_err = None →
  serialReaderThread_turn true
    (([sync; c; e; n] ++ body) ++ [byte.of_Z (Z.land crc 0xff); byte.of_Z (Z.shiftr crc 8)])
    port_err
  = let high := byte.wrap (4 + byte.unsigned n) in
    if (4 <=? high) && (high <=? 64) then
      Published {| cmd := c; err := e;
                   payload := take (Z.to_nat high - 4)
                                (body ++ [byte.of_Z (Z.land crc 0xff);
                                          byte.of_Z (Z.shiftr crc 8)]) |}
    else SliceOutOfRange.
Proof.
  intros crc Hbody ->.
  assert (Hlen : length ([sync; c; e; n] ++ body) = 62%nat).
  { rewrite length_app, Hbody. reflexivity. }
  unfold serialReaderThread_turn.
  set (f := ([sync; c; e; n] ++ body) ++ _).
  assert (Hf : length f = packetSize).
  { unfold f. rewrite length_app, Hlen. reflexivity. }
  rewrite firstn_all2 by lia.
  rewrite list_inserts_replicate by lia.
  rewrite Hf, Nat.sub_diag, app_nil_r, Nat.eqb_refl.
  change (bool_decide (is_Some None) || negb true) with false. cbv iota.
  change (f !!! idxSync) with sync.
  change (Byte.eqb sync sync) with true. cbv iota. cbn [negb].
  change (f !!! idxCmd) with c. change (f !!! idxErr) with e.
  change (f !!! 3%nat) with n.
  replace (take (packetSize - 2) f) with ([sync; c; e; n] ++ body)
    by (unfold f; symmetry; apply take_app_length'; rewrite Hlen; reflexivity).
  fold crc.
  replace (f !!! (packetSize - 2)%nat) with (byte.of_Z (Z.land crc 255)).
  2:{ unfold f. rewrite lookup_total_app_r by (rewrite Hlen; unfold packetSize; lia).
      rewrite Hlen. reflexivity. }
  replace (f !!! (packetSize - 1)%nat) with (byte.of_Z (Z.shiftr crc 8)).
  2:{ unfold f. rewrite lookup_total_app_r by (rewrite Hlen; unfold packetSize; lia).
      rewrite Hlen. reflexivity. }
  rewrite LittleEndian_Uint16_split by apply Checksum_range.
  rewrite Z.eqb_refl. cbn [negb].
  reflexivity.
Qed.

Lemma Transfer_send_full cmd payload port :
  (len payload ≤ MaxPayloadLen)%nat →
  Transfer_send cmd payload written port = (None, port ++ [Transfer_txBuf cmd payload]).
Proof.
  intros Hn. unfold Transfer_send.
  destruct (Nat.ltb_spec MaxPayloadLen (len payload)); [lia|].
  unfold written. cbn [write_err bytesWritten].
  rewrite Transfer_txBuf_length, Nat.eqb_refl by assumption. cbn [negb].
  rewrite firstn_all2; [reflexivity|].
  rewrite Transfer_txBuf_length by assumption. reflexivity.
Qed.

(** C1: a request frame that [Transfer] writes for a payload of 0 to 58
    bytes and that the read loop then reads in full passes the length, sync
    and checksum checks, and the message published carries the command of
    the request, status 0 and the payload, whose length is the frame's
    length byte. *)
Theorem roundtrip cmd payload port :
  (len payload ≤ MaxPayloadLen)%nat →
  ∃ frame,
    Transfer_send cmd payload written port = (None, port ++ [frame])
    ∧ length frame = packetSize
    ∧ serialReaderThread_turn true frame None
      = Published {| cmd := cmd; err := Byte.x00; payload := elems payload |}
    ∧ byte.unsigned (frame !!! idxlen) = Z.of_nat (len payload).
Proof.
  intros Hn. exists (Transfer_txBuf cmd payload).
  pose proof (Transfer_txBuf_length cmd payload Hn) as Hlen.
  pose proof (frame_head_length cmd payload Hn) as Hhead.
  split; [|split; [assumption|split]].
  - by apply Transfer_send_full.
  - rewrite Transfer_txBuf_layout by assumption. cbv zeta.
    unfold frame_head.
    rewrite reader_accepts; [|rewrite length_app, length_replicate;
       change MaxPayloadLen with 58%nat in *; destruct payload; simpl in *; lia
      |reflexivity].
    cbv zeta. rewrite len_byte by assumption.
    change MaxPayloadLen with 58%nat in *.
    unfold byte.wrap. rewrite Z.mod_small by lia.
    destruct (Z.leb_spec 4 (4 + Z.of_nat (len payload))); [|lia].
    destruct (Z.leb_spec (4 + Z.of_nat (len payload)) 64); [|lia].
    cbn [andb]. do 2 f_equal.
    replace (Z.to_nat (4 + Z.of_nat (len payload)) - 4)%nat
      with (length (elems payload)) by (destruct payload; simpl; lia).
    rewrite <- app_assoc. apply take_app_length.
  - rewrite Transfer_txBuf_layout by assumption. cbv zeta.
    change ((frame_head cmd payload ++ _) !!! idxlen)
      with (byte.of_Z (Z.of_nat (len payload))).
    by apply len_byte.
Qed.

Lemma frame_head_lookup_pad cmd payload i :
  (4 + len payload ≤ i < 62)%nat →
  (len payload ≤ MaxPayloadLen)%nat →
  frame_head cmd payload !! i = Some Byte.x00.
Proof.
  intros Hi Hn. change MaxPayloadLen with 58%nat in Hn.
  assert (Hel : length (elems payload) = len payload) by (by destruct payload).
  unfold frame_head.
  rewrite lookup_app_r by (simpl; lia).
  rewrite lookup_app_r by (simpl; lia).
  apply lookup_replicate_2. simpl. change MaxPayloadLen with 58%nat. lia.
Qed.

(** C2: for a payload of at most 58 bytes, the frame [Transfer] hands to the
    port is 64 bytes long: byte 0 is the sync value 0x69, byte 1 the command,
    byte 2 zero, byte 3 the payload length, the payload follows from byte 4,
    zeros fill the rest up to byte 61, and bytes 62 and 63 hold the low and
    the high byte of the CRC-16 of bytes 0 to 61; with an empty payload,
    bytes 4 to 61 are all zero. *)
Theorem Transfer_frame_layout cmd payload port :
  (len payload ≤ MaxPayloadLen)%nat →
  ∃ frame n lo hi,
    Transfer_send cmd payload written port = (None, port ++ [frame])
    ∧ frame = Transfer_txBuf cmd payload
    ∧ length frame = 64%nat
    ∧ frame !! 0%nat = Some Byte.x69
    ∧ frame !! 1%nat = Some cmd
    ∧ frame !! 2%nat = Some Byte.x00
    ∧ frame !! 3%nat = Some n ∧ byte.unsigned n = Z.of_nat (len payload)
    ∧ take (len payload) (drop 4 frame) = elems payload
    ∧ (∀ i, (4 + len payload ≤ i < 62)%nat → frame !! i = Some Byte.x00)
    ∧ frame !! 62%nat = Some lo ∧ frame !! 63%nat = Some hi
    ∧ byte.unsigned lo = crc16.Checksum (take 62 frame) crcTable mod 256
    ∧ byte.unsigned hi = crc16.Checksum (take 62 frame) crcTable / 256
    ∧ (len payload = 0%nat → take 58 (drop 4 frame) = replicate 58 Byte.x00).
Proof.
  intros Hn.
  pose proof (Transfer_send_full cmd payload port Hn) as Hsend.
  pose proof (Transfer_txBuf_length cmd payload Hn) as Hlen.
  set (frame := Transfer_txBuf cmd payload) in Hsend, Hlen.
  assert (Hframe : frame = Transfer_txBuf cmd payload) by reflexivity.
  clearbody frame.
  pose proof (Transfer_txBuf_layout cmd payload Hn) as Hlay. cbv zeta in Hlay.
  pose proof (frame_head_length cmd payload Hn) as Hhead.
  set (crc := crc16.Checksum (frame_head cmd payload) crcTable) in Hlay.
  pose proof (Checksum_range (frame_head cmd payload) crcTable) as Hcrc. fold crc in Hcrc.
  assert (Htake : take 62 frame = frame_head cmd payload).
  { rewrite Hframe, Hlay. by apply take_app_length'. }
  assert (Hel : length (elems payload) = len payload) by (by destruct payload).
  exists frame, (byte.of_Z (Z.of_nat (len payload))),
    (byte.of_Z (Z.land crc 0xff)), (byte.of_Z (Z.shiftr crc 8)).
  rewrite Htake. fold crc.
  split; [exact Hsend|]. split; [exact Hframe|]. split; [exact Hlen|].
  rewrite Hframe, Hlay. clearbody crc.
  split; [reflexivity|]. split; [reflexivity|]. split; [reflexivity|].
  split; [reflexivity|].
  split; [|split; [|split; [|split; [|split; [|split; [|split]]]]]].
  - by apply len_byte.
  - unfold frame_head. simpl drop. rewrite <- Hel, <- app_assoc.
    apply take_app_length.
  - intros i Hi. rewrite lookup_app_l by lia. by apply frame_head_lookup_pad.
  - rewrite lookup_app_r by lia. by rewrite Hhead.
  - rewrite lookup_app_r by lia. by rewrite Hhead.
  - rewrite unsigned_of_Z_small.
    + change 255 with (Z.ones 8). rewrite Z.land_ones by lia. reflexivity.
    + change 255 with (Z.ones 8). rewrite Z.land_ones by lia.
      apply Z.mod_pos_bound. lia.
  - rewrite Z.shiftr_div_pow2 by lia. apply unsigned_of_Z_small. split.
    + apply Z.div_pos; lia.
    + apply Z.div_lt_upper_bound; lia.
  - intros H0. unfold frame_head. simpl drop. rewrite H0.
    destruct payload as [[|]|]; try discriminate; reflexivity.
Qed.

Lemma roundtrip_witness :
  (len (Some [Byte.x01; Byte.x02; Byte.x03]) ≤ MaxPayloadLen)%nat
  ∧ ∃ frame,
      Transfer_send Byte.x30 (Some [Byte.x01; Byte.x02; Byte.x03]) written []
        = (None, [] ++ [frame])
      ∧ length frame = packetSize
      ∧ serialReaderThread_turn true frame None
        = Published {| cmd := Byte.x30; err := Byte.x00;
                       payload := elems (Some [Byte.x01; Byte.x02; Byte.x03]) |}
      ∧ byte.unsigned (frame !!! idxlen)
        = Z.of_nat (len (Some [Byte.x01; Byte.x02; Byte.x03])).
Proof.
  assert (H : (len (Some [Byte.x01; Byte.x02; Byte.x03]) ≤ MaxPayloadLen)%nat)
    by (vm_compute; lia).
  exact (conj H (roundtrip Byte.x30 (Some [Byte.x01; Byte.x02; Byte.x03]) [] H)).
Defined.

Lemma Transfer_frame_layout_witness :
  (len None ≤ MaxPayloadLen)%nat
  ∧ ∃ frame n lo hi,
      Transfer_send Byte.x10 None written [] = (None, [] ++ [frame])
      ∧ frame = Transfer_txBuf Byte.x10 None
      ∧ length frame = 64%nat
      ∧ frame !! 0%nat = Some Byte.x69
      ∧ frame !! 1%nat = Some Byte.x10
      ∧ frame !! 2%nat = Some Byte.x00
      ∧ frame !! 3%nat = Some n ∧ byte.unsigned n = Z.of_nat (len None)
      ∧ take (len None) (drop 4 frame) = elems None
      ∧ (∀ i, (4 + len None ≤ i < 62)%nat → frame !! i = Some Byte.x00)
      ∧ frame !! 62%nat = Some lo ∧ frame !! 63%nat = Some hi
      ∧ byte.unsigned lo = crc16.Checksum (take 62 frame) crcTable mod 256
      ∧ byte.unsigned hi = crc16.Checksum (take 62 frame) crcTable / 256
      ∧ (len None = 0%nat → take 58 (drop 4 frame) = replicate 58 Byte.x00).
Proof.
  assert (H : (len None ≤ MaxPayloadLen)%nat) by (vm_compute; lia).
  exact (conj H (Transfer_frame_layout Byte.x10 None [] H)).
Defined.

(** The request for the firmware version on the wire, byte by byte. *)
Example Transfer_txBuf_version :
  Transfer_txBuf Byte.x10 None
  = [Byte.x69; Byte.x10; Byte.x00; Byte.x00] ++ replicate 58 Byte.x00
    ++ [Byte.xb1; Byte.x19].
Proof. vm_compute. reflexivity. Qed.

(** C9: the read loop does not check the length byte.  A frame of 64 bytes
    with the sync byte and a matching checksum whose length byte is 200
    passes every check, and the slice expression [rxBuf[4 : 4+200]] is out
    of range of the 64-byte buffer; with length byte 59 the frame is
    published with a payload of 59 bytes, the last of which is the first
    checksum byte. *)
Theorem reader_length_unchecked :
  length frame_len200 = packetSize
  ∧ frame_len200 !! idxSync = Some sync
  ∧ crc16.Checksum (take 62 frame_len200) crcTable
    = LittleEndian_Uint16 (frame_len200 !!! 62%nat) (frame_len200 !!! 63%nat)
  ∧ byte.unsigned (frame_len200 !!! idxlen) = 200
  ∧ serialReaderThread_turn true frame_len200 None = SliceOutOfRange
  ∧ length frame_len59 = packetSize
  ∧ serialReaderThread_turn true frame_len59 None
    = Published {| cmd := Byte.x61; err := Byte.x00;
                   payload := replicate 58 Byte.x00 ++ [Byte.x71] |}.
Proof. vm_compute. repeat split; reflexivity. Qed.

(** ** The dispatcher *)

Lemma receive_range_spec {F} (cbs : list (CommandID * F)) msg isAnswer :
  let hit := filter (λ cb, cb.1 = cmd msg) cbs in
  receive_range cbs msg isAnswer
  = ((λ cb, Call cb.2 (err msg) (payload msg)) <$> hit,
     match hit with [] => isAnswer | _ => false end).
Proof.
  revert isAnswer. induction cbs as [|cb cbs IH]; intros isAnswer; [reflexivity|].
  cbn [receive_range]. rewrite filter_cons.
  destruct (decide (cb.1 = cmd msg)) as [Heq | Hne].
  - rewrite (Byte.byte_dec_lb Heq), IH. cbv zeta.
    cbn [fmap list_fmap]. f_equal.
    by destruct (filter _ cbs).
  - destruct (Byte.eqb cb.1 (cmd msg)) eqn:E.
    + by apply Byte.byte_dec_bl in E.
    + apply IH.
Qed.

Lemma Transfer_select_answer c answer :
  Transfer_select c (AnsReceived answer)
  = if decide (cmd answer = c)
    then (err answer, Some (payload answer), None)
    else (Byte.x00, None, Some ErrCmdMismatch).
Proof.
  unfold Transfer_select.
  destruct (decide (cmd answer = c)) as [Heq | Hne].
  - by rewrite (Byte.byte_dec_lb Heq).
  - destruct (Byte.eqb (cmd answer) c) eqn:E; [|reflexivity].
    by apply Byte.byte_dec_bl in E.
Qed.

(** C3, as the code has it: every registered callback whose command equals
    the frame's is called with the frame's status byte and payload; when at
    least one matched the frame is not forwarded and [receive] is back in its
    [select]; when none matched, [receive] rests in the send on the answer
    channel, whether or not a transaction is pending: it takes no further
    frame and no registration until a [Transfer] receives the frame. *)
Theorem receive_dispatch {F} (st : receive_state F) (msg : message) :
  at_ st = AtSelect →
  ∃ calls st',
    receive_rx msg st = Some (calls, st')
    ∧ calls = (λ cb, Call cb.2 (err msg) (payload msg))
                <$> filter (λ cb, cb.1 = cmd msg) (callbacks st)
    ∧ callbacks st' = callbacks st
    ∧ (calls ≠ [] → at_ st' = AtSelect ∧ receive_ans st' = None)
    ∧ (calls = [] →
         at_ st' = AtAnsSend msg
         ∧ (∀ m, receive_rx m st' = None)
         ∧ (∀ cb, receive_register cb st' = None)
         ∧ receive_ans st'
           = Some (msg, {| callbacks := callbacks st; at_ := AtSelect |})).
Proof.
  intros Hat. unfold receive_rx. rewrite Hat, receive_range_spec. cbv zeta.
  eexists _, _. split; [reflexivity|]. split; [reflexivity|]. split; [reflexivity|].
  destruct (filter _ (callbacks st)) as [|cb hit]; cbn.
  - split; [done|]. intros _. done.
  - split; [done|]. intros ?; discriminate.
Qed.

Lemma receive_dispatch_witness :
  at_ {| callbacks := [(Byte.x81, 7%nat)]; at_ := AtSelect |} = AtSelect
  ∧ ∃ calls st',
      receive_rx {| cmd := Byte.x81; err := Byte.x00; payload := [Byte.x01] |}
                 {| callbacks := [(Byte.x81, 7%nat)]; at_ := AtSelect |}
        = Some (calls, st')
      ∧ calls = (λ cb, Call cb.2 Byte.x00 [Byte.x01])
                  <$> filter (λ cb, cb.1 = Byte.x81) [(Byte.x81, 7%nat)]
      ∧ callbacks st' = [(Byte.x81, 7%nat)]
      ∧ (calls ≠ [] → at_ st' = AtSelect ∧ receive_ans st' = None)
      ∧ (calls = [] →
           at_ st' = AtAnsSend {| cmd := Byte.x81; err := Byte.x00; payload := [Byte.x01] |}
           ∧ (∀ m, receive_rx m st' = None)
           ∧ (∀ cb, receive_register cb st' = None)
           ∧ receive_ans st'
             = Some ({| cmd := Byte.x81; err := Byte.x00; payload := [Byte.x01] |},
                     {| callbacks := [(Byte.x81, 7%nat)]; at_ := AtSelect |})).
Proof.
  exact (conj eq_refl
           (receive_dispatch {| callbacks := [(Byte.x81, 7%nat)]; at_ := AtSelect |}
              {| cmd := Byte.x81; err := Byte.x00; payload := [Byte.x01] |} eq_refl)).
Defined.

(** C3 as stated fails: after [Open], with no callback registered and nobody
    in [Transfer], a frame is not dropped.  [receive] keeps it in the send on
    the answer channel, the next frame is not taken, and the first
    [Transfer] called afterwards gets the kept frame as its answer. *)
Lemma unsolicited_frame_is_kept :
  pending (@opened nat) = []
  ∧ ∃ s1 s2,
      step (LRx version_reply) (@opened nat) = Some s1
      ∧ at_ (dispatcher s1) = AtAnsSend version_reply
      ∧ step (LRx transfer_reply) s1 = None
      ∧ run [LCall Byte.x10 None; LSend 0 written; LAnswer 0] s1 = Some s2
      ∧ callers s2 = [Returned (Byte.x00, Some [Byte.x01; Byte.x02; Byte.x03], None)].
Proof.
  split; [reflexivity|].
  eexists _, _. split; [reflexivity|]. split; [reflexivity|]. split; [reflexivity|].
  split; [vm_compute; reflexivity|]. reflexivity.
Qed.

(** ** Callers of Transfer *)

Lemma step_send_full {F} (s : system F) i c p :
  callers s !! i = Some (Called c p) →
  (len p ≤ MaxPayloadLen)%nat →
  step (LSend i written) s
  = Some {| port := port s ++ [Transfer_txBuf c p];
            dispatcher := dispatcher s;
            callers := <[i := InSelect c]> (callers s);
            called := called s |}.
Proof.
  intros Hi Hn. cbn [step]. rewrite Hi, Transfer_send_full by assumption.
  reflexivity.
Qed.

Lemma step_answer {F} (s : system F) i c answer :
  callers s !! i = Some (InSelect c) →
  at_ (dispatcher s) = AtAnsSend answer →
  step (LAnswer i) s
  = Some {| port := port s;
            dispatcher := {| callbacks := callbacks (dispatcher s); at_ := AtSelect |};
            callers := <[i := Returned (Transfer_select c (AnsReceived answer))]> (callers s);
            called := called s |}.
Proof.
  intros Hi Hat. cbn [step]. unfold receive_ans. rewrite Hi, Hat. reflexivity.
Qed.

Lemma run_cons {F} (l : label F) ls (s s' : system F) :
  step l s = Some s' → run (l :: ls) s = run ls s'.
Proof. intros H. cbn [run]. by rewrite H. Qed.

(** A call of [Transfer] made when [receive] is in its [select] and no
    callback is registered for the command: the frame goes out, the reply
    comes in and is handed to the caller. *)
Lemma run_Transfer_alone {F} (s : system F) c p answer :
  at_ (dispatcher s) = AtSelect →
  (len p ≤ MaxPayloadLen)%nat →
  filter (λ cb, cb.1 = cmd answer) (callbacks (dispatcher s)) = [] →
  let n := length (callers s) in
  ∃ s',
    run [LCall c p; LSend n written; LRx answer; LAnswer n] s = Some s'
    ∧ callers s' !! n = Some (Returned (Transfer_select c (AnsReceived answer)))
    ∧ dispatcher s' = dispatcher s.
Proof.
  intros Hat Hn Hnone n.
  assert (Hrx : receive_rx answer (dispatcher s)
                = Some ([], {| callbacks := callbacks (dispatcher s);
                               at_ := AtAnsSend answer |})).
  { unfold receive_rx. rewrite Hat, receive_range_spec. cbv zeta.
    by rewrite Hnone. }
  assert (Hn' : (n < length (callers s ++ [Called c p]))%nat)
    by (rewrite length_app; simpl; lia).
  erewrite run_cons by reflexivity.
  erewrite run_cons by (apply step_send_full; [by apply list_lookup_middle|assumption]).
  erewrite run_cons by (cbn [step dispatcher]; rewrite Hrx; reflexivity).
  erewrite run_cons
    by (apply step_answer; [by apply list_lookup_insert_eq | reflexivity]).
  eexists. split; [reflexivity|]. cbn [callers dispatcher callbacks].
  split.
  - rewrite list_insert_insert_eq. by apply list_lookup_insert_eq.
  - destruct (dispatcher s); simpl in *; congruence.
Qed.

(** C7: a caller waiting in the [select] of [Transfer] that receives a reply
    returns [ErrCmdMismatch] with status 0 and a nil payload when the reply's
    command differs from the request's, and the reply's status byte and
    payload without error when they are equal.  Either way [receive] is back
    in its [select] with the same callbacks, the port and the other callers
    are untouched, and a [Transfer] called afterwards whose own reply comes
    in returns that reply. *)
Theorem Transfer_answer_check {F} (s : system F) i c answer :
  callers s !! i = Some (InSelect c) →
  at_ (dispatcher s) = AtAnsSend answer →
  let r := if decide (cmd answer = c)
           then (err answer, Some (payload answer), None)
           else (Byte.x00, None, Some ErrCmdMismatch) in
  (∀ p port, (len p ≤ MaxPayloadLen)%nat →
     Transfer c p written (AnsReceived answer) port
     = (r, port ++ [Transfer_txBuf c p]))
  ∧ ∃ s',
      step (LAnswer i) s = Some s'
      ∧ callers s' !! i = Some (Returned r)
      ∧ dispatcher s' = {| callbacks := callbacks (dispatcher s); at_ := AtSelect |}
      ∧ port s' = port s
      ∧ called s' = called s
      ∧ (∀ j, j ≠ i → callers s' !! j = callers s !! j)
      ∧ (∀ c2 p2 answer2,
           (len p2 ≤ MaxPayloadLen)%nat →
           cmd answer2 = c2 →
           filter (λ cb, cb.1 = c2) (callbacks (dispatcher s)) = [] →
           let n := length (callers s) in
           ∃ s2,
             run [LCall c2 p2; LSend n written; LRx answer2; LAnswer n] s' = Some s2
             ∧ callers s2 !! n
               = Some (Returned (err answer2, Some (payload answer2), None))).
Proof.
  intros Hi Hat r. split.
  - intros p port0 Hn. unfold Transfer.
    rewrite Transfer_send_full by assumption.
    by rewrite Transfer_select_answer.
  - eexists. split; [by apply step_answer|].
    cbn [callers dispatcher port called].
    assert (Hlt : (i < length (callers s))%nat) by (by eapply lookup_lt_Some).
    split; [by rewrite list_lookup_insert_eq, Transfer_select_answer|].
    split; [reflexivity|]. split; [reflexivity|]. split; [reflexivity|].
    split; [intros j Hj; by apply list_lookup_insert_ne|].
    intros c2 p2 answer2 Hn Hc Hnone.
    set (s' := {| port := port s |}).
    destruct (run_Transfer_alone s' c2 p2 answer2) as (s2 & Hrun & Hres & _);
      [reflexivity | assumption | by rewrite Hc | ].
    assert (Hlen : length (callers s') = length (callers s)) by apply length_insert.
    rewrite Hlen in Hrun, Hres.
    exists s2. split; [exact Hrun|].
    rewrite Hres, Transfer_select_answer. by rewrite decide_True.
Qed.

Lemma Transfer_answer_check_witness :
  callers stale_reply_offered !! 0%nat = Some (InSelect Byte.x10)
  ∧ at_ (dispatcher stale_reply_offered) = AtAnsSend transfer_reply
  ∧ ∃ s', step (LAnswer 0) stale_reply_offered = Some s'
          ∧ callers s' !! 0%nat = Some (Returned (Byte.x00, None, Some ErrCmdMismatch)).
Proof.
  destruct (Transfer_answer_check stale_reply_offered 0 Byte.x10 transfer_reply
              eq_refl eq_refl) as (_ & s' & Hstep & Hres & _).
  split; [reflexivity|]. split; [reflexivity|].
  exists s'. split; [exact Hstep | exact Hres].
Defined.

Lemma elem_of_pending {F} (s : system F) j :
  j ∈ pending s ↔ ∃ c, callers s !! j = Some (InSelect c).
Proof.
  unfold pending. rewrite list_elem_of_omap. split.
  - intros ([k cl] & Hin & Hsome).
    apply elem_of_lookup_imap in Hin as (k' & cl' & Heq & Hlk).
    injection Heq as -> ->.
    destruct cl'; try discriminate. injection Hsome as ->. eauto.
  - intros (c & Hlk). exists (j, InSelect c). split; [|reflexivity].
    apply elem_of_lookup_imap. eauto.
Qed.

(** C10, as the code has it: [Transfer] takes no lock.  A caller writes its
    frame and becomes pending whatever transactions are pending already, and
    those stay pending; a reply that [receive] offers is received by any one
    pending caller, which returns it when the reply's command equals its
    request's and [ErrCmdMismatch] otherwise; after that the reply is gone
    for every other caller. *)
Theorem Transfer_no_exclusion {F} (s : system F) i c p :
  callers s !! i = Some (Called c p) →
  (len p ≤ MaxPayloadLen)%nat →
  ∃ s',
    step (LSend i written) s = Some s'
    ∧ port s' = port s ++ [Transfer_txBuf c p]
    ∧ dispatcher s' = dispatcher s
    ∧ (∀ j, j ∈ pending s' ↔ j = i ∨ j ∈ pending s)
    ∧ (∀ j cj answer,
         callers s' !! j = Some (InSelect cj) →
         at_ (dispatcher s') = AtAnsSend answer →
         ∃ s'',
           step (LAnswer j) s' = Some s''
           ∧ callers s'' !! j
             = Some (Returned (if decide (cmd answer = cj)
                               then (err answer, Some (payload answer), None)
                               else (Byte.x00, None, Some ErrCmdMismatch)))
           ∧ (∀ k, step (LAnswer k) s'' = None)).
Proof.
  intros Hi Hn.
  assert (Hlt : (i < length (callers s))%nat) by (by eapply lookup_lt_Some).
  eexists. split; [by apply step_send_full|].
  cbn [port dispatcher callers].
  split; [reflexivity|]. split; [reflexivity|]. split.
  - intros j. rewrite !elem_of_pending. cbn [callers].
    destruct (decide (j = i)) as [-> | Hne].
    + rewrite list_lookup_insert_eq by assumption. split; [by left | eauto].
    + rewrite list_lookup_insert_ne by done. split; [by right|].
      intros [? | ?]; [done | assumption].
  - intros j cj answer Hj Hat.
    eexists. split; [by apply step_answer|]. cbn [callers].
    split.
    + rewrite list_lookup_insert_eq, Transfer_select_answer; [reflexivity|].
      by eapply lookup_lt_Some.
    + intros k. cbn [step dispatcher receive_ans at_].
      by destruct (_ !! k) as [[]|].
Qed.

Lemma Transfer_no_exclusion_witness :
  callers second_caller_enters !! 1%nat = Some (Called Byte.x30 (Some [Byte.x02]))
  ∧ (len (Some [Byte.x02]) ≤ MaxPayloadLen)%nat
  ∧ ∃ s', step (LSend 1 written) second_caller_enters = Some s'
          ∧ ∀ j, j ∈ pending s' ↔ j = 1%nat ∨ j ∈ pending second_caller_enters.
Proof.
  assert (Hn : (len (Some [Byte.x02]) ≤ MaxPayloadLen)%nat) by (vm_compute; lia).
  destruct (Transfer_no_exclusion second_caller_enters 1 Byte.x30 (Some [Byte.x02])
              eq_refl Hn) as (s' & Hstep & _ & _ & Hpend & _).
  split; [reflexivity|]. split; [exact Hn|].
  exists s'. split; [exact Hstep | exact Hpend].
Defined.

(** C10 as stated fails: two callers of [Transfer] are pending at the same
    time, the second having written its frame while the first still waits,
    and the reply to the first frame is returned to the second caller. *)
Lemma two_pending_transactions :
  ∃ s1 s2 : system nat,
    run [LCall Byte.x30 (Some [Byte.x01]); LCall Byte.x30 (Some [Byte.x02]);
         LSend 0 written; LSend 1 written] opened = Some s1
    ∧ port s1 = [Transfer_txBuf Byte.x30 (Some [Byte.x01]);
                 Transfer_txBuf Byte.x30 (Some [Byte.x02])]
    ∧ callers s1 = [InSelect Byte.x30; InSelect Byte.x30]
    ∧ pending s1 = [0%nat; 1%nat]
    ∧ run [LRx reply_to_first; LAnswer 1] s1 = Some s2
    ∧ callers s2 = [InSelect Byte.x30; Returned (Byte.x00, Some [Byte.xaa], None)].
Proof.
  eexists _, _.
  split; [vm_compute; reflexivity|].
  split; [vm_compute; reflexivity|].
  split; [reflexivity|]. split; [reflexivity|].
  split; [vm_compute; reflexivity|]. reflexivity.
Qed.

(** ** The checksum and single bytes *)

Lemma wrap16_lxor a b : wrap16 (Z.lxor a b) = Z.lxor (wrap16 a) (wrap16 b).
Proof. unfold wrap16. Z.bitblast. Qed.

Lemma lxor_cancel_r a b c : Z.lxor a c = Z.lxor b c → a = b.
Proof.
  intros H.
  rewrite <- (Z.lxor_0_r a), <- (Z.lxor_nilpotent c), <- Z.lxor_assoc, H.
  by rewrite Z.lxor_assoc, Z.lxor_nilpotent, Z.lxor_0_r.
Qed.

Lemma table_length : length (crc16.data crcTable) = 256%nat.
Proof. reflexivity. Qed.

Lemma table_range : Forall (λ t, 0 <= t < 65536) (crc16.data crcTable).
Proof. apply (bool_decide_eq_true_1 _). vm_compute. reflexivity. Qed.

Lemma table_low_NoDup : NoDup ((λ t, t mod 256) <$> crc16.data crcTable).
Proof. apply (bool_decide_eq_true_1 _). vm_compute. reflexivity. Qed.

Lemma lxor_byte_range a b : 0 <= a < 256 → 0 <= b < 256 → 0 <= Z.lxor a b < 256.
Proof.
  intros Ha Hb.
  replace (Z.lxor a b) with (Z.lxor a b mod 2 ^ 8).
  - apply Z.mod_pos_bound. lia.
  - transitivity (Z.lxor (a mod 2 ^ 8) (b mod 2 ^ 8)); [Z.bitblast|].
    rewrite !Z.mod_small by lia. reflexivity.
Qed.

Lemma Update_step crc d :
  0 <= crc < 2 ^ 16 →
  ∃ t,
    crc16.data crcTable !! Z.to_nat (Z.lxor (crc / 256) (byte.unsigned d)) = Some t
    ∧ 0 <= t < 65536
    ∧ crc16.Update crc [d] crcTable = Z.lxor (Z.shiftl (crc mod 256) 8) t.
Proof.
  intros Hc.
  pose proof (byte.unsigned_range d) as Hd.
  assert (Hhi : 0 <= crc / 256 < 256).
  { split; [apply Z.div_pos; lia | apply Z.div_lt_upper_bound; lia]. }
  pose proof (lxor_byte_range _ _ Hhi Hd) as Hk.
  set (k := Z.lxor (crc / 256) (byte.unsigned d)) in *.
  destruct (lookup_lt_is_Some_2 (crc16.data crcTable) (Z.to_nat k)) as [t Ht].
  { rewrite table_length. lia. }
  pose proof (proj1 (Forall_lookup _ _) table_range _ _ Ht) as Hrange.
  cbv beta in Hrange.
  exists t. split; [exact Ht|]. split; [exact Hrange|].
  unfold crc16.Update. cbn [foldl].
  rewrite Z.shiftr_div_pow2 by lia.
  unfold byte.wrap. change (2 ^ 8) with 256. rewrite (Z.mod_small (crc / 256)) by lia.
  fold k. rewrite (list_lookup_total_correct _ _ _ Ht).
  rewrite wrap16_lxor. unfold wrap16.
  rewrite (Z.mod_small t) by lia. f_equal.
  change 256 with (2 ^ 8). Z.bitblast.
Qed.

Lemma lxor_shiftl_low l t : Z.lxor (Z.shiftl l 8) t mod 256 = t mod 256.
Proof.
  change 256 with (2 ^ 8). Z.bitblast.
  rewrite (Z.testbit_neg_r l) by lia. reflexivity.
Qed.

Lemma Update_step_inj crc1 crc2 d1 d2 :
  0 <= crc1 < 2 ^ 16 → 0 <= crc2 < 2 ^ 16 →
  crc16.Update crc1 [d1] crcTable = crc16.Update crc2 [d2] crcTable →
  crc1 mod 256 = crc2 mod 256
  ∧ Z.lxor (crc1 / 256) (byte.unsigned d1) = Z.lxor (crc2 / 256) (byte.unsigned d2).
Proof.
  intros H1 H2 Heq.
  destruct (Update_step crc1 d1 H1) as (t1 & Ht1 & Hr1 & E1).
  destruct (Update_step crc2 d2 H2) as (t2 & Ht2 & Hr2 & E2).
  rewrite E1, E2 in Heq.
  assert (Hlow : t1 mod 256 = t2 mod 256).
  { by rewrite <- (lxor_shiftl_low (crc1 mod 256) t1), Heq, lxor_shiftl_low. }
  assert (Hk : Z.to_nat (Z.lxor (crc1 / 256) (byte.unsigned d1))
               = Z.to_nat (Z.lxor (crc2 / 256) (byte.unsigned d2))).
  { eapply (NoDup_lookup _ _ _ (t1 mod 256) table_low_NoDup);
      rewrite list_lookup_fmap; [by rewrite Ht1 | by rewrite Ht2, Hlow]. }
  rewrite Hk, Ht2 in Ht1. injection Ht1 as <-.
  apply lxor_cancel_r in Heq.
  split.
  - rewrite !Z.shiftl_mul_pow2 in Heq by lia. lia.
  - pose proof (byte.unsigned_range d1). pose proof (byte.unsigned_range d2).
    assert (0 <= crc1 / 256 < 256)
      by (split; [apply Z.div_pos; lia | apply Z.div_lt_upper_bound; lia]).
    assert (0 <= crc2 / 256 < 256)
      by (split; [apply Z.div_pos; lia | apply Z.div_lt_upper_bound; lia]).
    pose proof (lxor_byte_range (crc1 / 256) (byte.unsigned d1)).
    pose proof (lxor_byte_range (crc2 / 256) (byte.unsigned d2)).
    lia.
Qed.

Lemma Update_app crc l1 l2 t :
  crc16.Update crc (l1 ++ l2) t = crc16.Update (crc16.Update crc l1 t) l2 t.
Proof. apply foldl_app. Qed.

Lemma Update_range crc bs t :
  0 <= crc < 2 ^ 16 → 0 <= crc16.Update crc bs t < 2 ^ 16.
Proof.
  revert crc. induction bs as [|d bs IH]; intros crc Hc; [exact Hc|].
  change (d :: bs) with ([d] ++ bs). rewrite Update_app.
  apply IH. unfold crc16.Update. cbn [foldl]. apply wrap16_range.
Qed.

Lemma Update_inj crc1 crc2 bs :
  0 <= crc1 < 2 ^ 16 → 0 <= crc2 < 2 ^ 16 →
  crc16.Update crc1 bs crcTable = crc16.Update crc2 bs crcTable → crc1 = crc2.
Proof.
  revert crc1 crc2. induction bs as [|d bs IH]; intros crc1 crc2 H1 H2 Heq; [exact Heq|].
  change (d :: bs) with ([d] ++ bs) in Heq. rewrite !Update_app in Heq.
  apply IH in Heq; [|by apply Update_range..].
  apply Update_step_inj in Heq as [Hlo Hhi]; [|assumption..].
  apply lxor_cancel_r in Hhi.
  rewrite (Z.div_mod crc1 256), (Z.div_mod crc2 256) by lia. congruence.
Qed.

Lemma Checksum_byte_change pre x y post :
  x ≠ y →
  crc16.Checksum (pre ++ x :: post) crcTable ≠ crc16.Checksum (pre ++ y :: post) crcTable.
Proof.
  intros Hxy Heq. apply Hxy.
  unfold crc16.Checksum, crc16.Complete in Heq.
  assert (Hinit : 0 <= crc16.Init (crc16.params crcTable) < 2 ^ 16) by (vm_compute; split; congruence).
  change (crc16.XorOut (crc16.params crcTable)) with 0 in Heq.
  rewrite !Z.lxor_0_r in Heq. unfold wrap16 in Heq.
  rewrite !Z.mod_small in Heq by (by apply Update_range).
  change (x :: post) with ([x] ++ post) in Heq.
  change (y :: post) with ([y] ++ post) in Heq.
  rewrite !Update_app in Heq.
  apply Update_inj in Heq; [|by repeat apply Update_range..].
  apply Update_step_inj in Heq as [_ Hk]; [|by apply Update_range..].
  apply byte.unsigned_inj.
  rewrite (Z.lxor_comm _ (byte.unsigned x)), (Z.lxor_comm _ (byte.unsigned y)) in Hk.
  by apply lxor_cancel_r in Hk.
Qed.

(** ** The read loop on arbitrary reads *)

Lemma serialReaderThread_turn_full f :
  length f = packetSize →
  serialReaderThread_turn true f None
  = if negb (Byte.eqb (f !!! 0%nat) sync) then Skipped
    else if negb (crc16.Checksum (take 62 f) crcTable
                  =? LittleEndian_Uint16 (f !!! 62%nat) (f !!! 63%nat))
    then Skipped
    else
      let high := byte.wrap (4 + byte.unsigned (f !!! 3%nat)) in
      if (4 <=? high) && (high <=? 64) then
        Published {| cmd := f !!! 1%nat; err := f !!! 2%nat;
                     payload := take (Z.to_nat high - 4) (drop 4 f) |}
      else SliceOutOfRange.
Proof.
  intros Hlen. unfold serialReaderThread_turn.
  rewrite firstn_all2 by lia.
  rewrite list_inserts_replicate by lia.
  rewrite Hlen, Nat.sub_diag, app_nil_r, Nat.eqb_refl.
  reflexivity.
Qed.

Lemma serialReaderThread_turn_short read read_err :
  read_err ≠ None ∨ (length read < packetSize)%nat →
  serialReaderThread_turn true read read_err = Skipped.
Proof.
  intros H. unfold serialReaderThread_turn.
  destruct read_err as [e|]; [reflexivity|].
  destruct H as [? | H]; [done|].
  rewrite length_take, Nat.min_r by lia.
  destruct (Nat.eqb_spec (length read) packetSize); [lia|]. reflexivity.
Qed.

Lemma wrap_high n :
  0 <= n < 256 →
  (4 <=? byte.wrap (4 + n)) && (byte.wrap (4 + n) <=? 64) = (n <=? 60)
  ∧ (n <= 60 → byte.wrap (4 + n) = 4 + n).
Proof.
  intros Hn. unfold byte.wrap. change (2 ^ 8) with 256.
  destruct (Z_lt_le_dec n 252).
  - rewrite Z.mod_small by lia. split; [|done].
    destruct (Z.leb_spec 4 (4 + n)), (Z.leb_spec (4 + n) 64), (Z.leb_spec n 60);
      simpl; lia.
  - replace ((4 + n) mod 256) with (n - 252).
    + split; [|lia].
      destruct (Z.leb_spec 4 (n - 252)), (Z.leb_spec n 60); simpl; lia.
    + apply (Z.mod_unique _ _ 1); lia.
Qed.

Lemma serialReaderThread_turn_trichotomy read read_err :
  let f := take packetSize read in
  let n := byte.unsigned (f !!! 3%nat) in
  (¬ frame_checked f read_err
   ∧ serialReaderThread_turn true read read_err = Skipped)
  ∨ (frame_checked f read_err ∧ 60 < n
     ∧ serialReaderThread_turn true read read_err = SliceOutOfRange)
  ∨ (frame_checked f read_err ∧ n <= 60
     ∧ serialReaderThread_turn true read read_err
       = Published {| cmd := f !!! 1%nat; err := f !!! 2%nat;
                      payload := take (Z.to_nat n) (drop 4 f) |}).
Proof.
  intros f n.
  assert (Hturn : serialReaderThread_turn true read read_err
                  = match read_err with
                    | Some _ => Skipped
                    | None => if (length f =? packetSize)%nat
                              then serialReaderThread_turn true f None else Skipped
                    end).
  { destruct read_err as [e|]; [reflexivity|].
    destruct (Nat.eqb_spec (length f) packetSize) as [Hl | Hl].
    - unfold serialReaderThread_turn. fold f.
      replace (take packetSize f) with f by (symmetry; apply firstn_all2; lia).
      reflexivity.
    - unfold serialReaderThread_turn. fold f.
      destruct (Nat.eqb_spec (length f) packetSize); [done|]. reflexivity. }
  pose proof (byte.unsigned_range (f !!! 3%nat)) as Hn. fold n in Hn.
  change (2 ^ 8) with 256 in Hn.
  destruct (wrap_high n Hn) as [Hcond Hhigh].
  rewrite Hturn. unfold frame_checked.
  destruct read_err as [e|]; [left; split; [intros [? _]; done | done]|].
  destruct (Nat.eqb_spec (length f) packetSize) as [Hl | Hl];
    [|left; split; [intros (_ & ? & _); done | done]].
  rewrite serialReaderThread_turn_full by assumption. cbv zeta. fold n.
  assert (Hf0 : f !! 0%nat = Some (f !!! 0%nat)).
  { apply list_lookup_lookup_total_lt. rewrite Hl. unfold packetSize. lia. }
  destruct (Byte.eqb (f !!! 0%nat) sync) eqn:Esync; cbn [negb].
  2:{ left. split; [|done]. intros (_ & _ & H0 & _).
      rewrite Hf0 in H0. injection H0 as H0. rewrite H0 in Esync.
      discriminate. }
  apply Byte.byte_dec_bl in Esync.
  destruct (Z.eqb_spec (crc16.Checksum (take 62 f) crcTable)
              (LittleEndian_Uint16 (f !!! 62%nat) (f !!! 63%nat))) as [Hcrc | Hcrc];
    cbn [negb].
  2:{ left. split; [|done]. intros (_ & _ & _ & ?). done. }
  right. rewrite Hcond.
  assert (Hok : @None UsbError = None ∧ length f = packetSize ∧ f !! 0%nat = Some sync
                ∧ crc16.Checksum (take 62 f) crcTable
                  = LittleEndian_Uint16 (f !!! 62%nat) (f !!! 63%nat)).
  { rewrite Hf0, Esync. done. }
  destruct (Z.leb_spec n 60) as [Hle | Hgt].
  - right. split; [exact Hok|]. split; [exact Hle|].
    rewrite Hhigh by assumption. do 3 f_equal. lia.
  - left. done.
Qed.

(** X1: what one turn of the read loop does with the bytes of a read, in
    full.  The read is skipped unless it came without error, filled the
    64-byte buffer, starts with the sync byte and carries the checksum of its
    first 62 bytes; a read that passes is published when its length byte is
    at most 60, with bytes 1 and 2 as command and status and as many bytes
    from byte 4 on as the length byte says, and makes the slice expression
    panic when the length byte is larger.  A published payload never has
    more than 60 bytes, and nothing is read while the port is not set. *)
Theorem serialReaderThread_turn_cases read read_err :
  let f := take packetSize read in
  let n := byte.unsigned (f !!! 3%nat) in
  (serialReaderThread_turn true read read_err = Skipped ↔ ¬ frame_checked f read_err)
  ∧ (serialReaderThread_turn true read read_err = SliceOutOfRange
     ↔ frame_checked f read_err ∧ 60 < n)
  ∧ (∀ m, serialReaderThread_turn true read read_err = Published m
          ↔ frame_checked f read_err ∧ n <= 60
            ∧ m = {| cmd := f !!! 1%nat; err := f !!! 2%nat;
                     payload := take (Z.to_nat n) (drop 4 f) |})
  ∧ match serialReaderThread_turn true read read_err with
    | Published m => length (payload m) = Z.to_nat n ∧ (length (payload m) ≤ 60)%nat
    | _ => True
    end
  ∧ serialReaderThread_turn false read read_err = Skipped.
Proof.
  intros f n.
  pose proof (serialReaderThread_turn_trichotomy read read_err) as Hcases.
  cbv zeta in Hcases. fold f n in Hcases.
  split; [|split; [|split; [|split]]].
  - destruct Hcases as [[Hno E] | [(Hok & _ & E) | (Hok & _ & E)]]; rewrite E;
      split; try done.
  - destruct Hcases as [[Hno E] | [(Hok & Hgt & E) | (Hok & Hle & E)]]; rewrite E;
      split; try done; intros [? ?]; first [done | lia].
  - intros m.
    destruct Hcases as [[Hno E] | [(Hok & Hgt & E) | (Hok & Hle & E)]]; rewrite E;
      split; try done.
    + intros (? & _). done.
    + intros (_ & ? & _). lia.
    + intros [= <-]. done.
    + intros (_ & _ & ->). done.
  - destruct Hcases as [[Hno E] | [(Hok & Hgt & E) | (Hok & Hle & E)]];
      rewrite E; try done.
    cbn [payload]. destruct Hok as (_ & Hl & _).
    rewrite length_take, length_drop, Hl. unfold packetSize. lia.
  - reflexivity.
Qed.

Lemma LittleEndian_Uint16_sum a b :
  LittleEndian_Uint16 a b = byte.unsigned a + 256 * byte.unsigned b.
Proof.
  unfold LittleEndian_Uint16.
  pose proof (byte.unsigned_range a) as Ha.
  assert (Hand : Z.land (byte.unsigned a) (Z.shiftl (byte.unsigned b) 8) = 0).
  { rewrite <- (Z.mod_small (byte.unsigned a) (2 ^ 8)) by lia. Z.bitblast.
    rewrite (Z.testbit_neg_r _ l) by lia. apply andb_false_r. }
  rewrite <- (Z.lxor_lor _ _ Hand), <- (Z.add_nocarry_lxor _ _ Hand).
  rewrite Z.shiftl_mul_pow2 by lia. lia.
Qed.

Lemma LittleEndian_Uint16_inj a b c d :
  LittleEndian_Uint16 a b = LittleEndian_Uint16 c d → a = c ∧ b = d.
Proof.
  rewrite !LittleEndian_Uint16_sum. intros H.
  pose proof (byte.unsigned_range a). pose proof (byte.unsigned_range b).
  pose proof (byte.unsigned_range c). pose proof (byte.unsigned_range d).
  split; apply byte.unsigned_inj; lia.
Qed.

(** X2: the read loop never accepts a frame that differs in exactly one
    byte from a frame it accepts: whichever of the 64 bytes is changed, the
    sync check or the checksum check fails and the read is skipped. *)
Theorem corrupted_byte_skipped pre x y post read_err :
  x ≠ y →
  length (pre ++ x :: post) = packetSize →
  serialReaderThread_turn true (pre ++ x :: post) read_err ≠ Skipped →
  serialReaderThread_turn true (pre ++ y :: post) read_err = Skipped.
Proof.
  intros Hxy Hlen Hacc.
  assert (Hlen' : length (pre ++ y :: post) = packetSize)
    by (rewrite length_app in *; exact Hlen).
  pose proof (serialReaderThread_turn_trichotomy (pre ++ x :: post) read_err) as Hx.
  pose proof (serialReaderThread_turn_trichotomy (pre ++ y :: post) read_err) as Hy.
  cbv zeta in Hx, Hy.
  rewrite (firstn_all2 (pre ++ x :: post)) in Hx by lia.
  rewrite (firstn_all2 (pre ++ y :: post)) in Hy by lia.
  assert (Hokx : frame_checked (pre ++ x :: post) read_err).
  { destruct Hx as [[_ E] | [(Hok & _) | (Hok & _)]]; done. }
  assert (Hnoy : ¬ frame_checked (pre ++ y :: post) read_err).
  2:{ destruct Hy as [[_ E] | [(Hok & _) | (Hok & _)]]; done. }
  intros Hoky.
  destruct Hokx as (_ & _ & Hsx & Hcx), Hoky as (_ & _ & Hsy & Hcy).
  rewrite length_app in Hlen. cbn [length] in Hlen. unfold packetSize in Hlen.
  destruct (decide (length pre = 0%nat)) as [H0 | H0].
  { destruct pre; [|done]. cbn in Hsx, Hsy. congruence. }
  destruct (decide (length pre < 62)%nat) as [Hmid | Hend].
  - (* a byte under the checksum *)
    rewrite !take_app_ge, !lookup_total_app_r in Hcx, Hcy by lia.
    replace (62 - length pre)%nat with (S (61 - length pre)) in Hcx, Hcy by lia.
    replace (63 - length pre)%nat with (S (62 - length pre)) in Hcx, Hcy by lia.
    cbn [take lookup_total list_lookup_total] in Hcx, Hcy.
    rewrite <- Hcy in Hcx. by apply Checksum_byte_change in Hcx.
  - (* one of the two checksum bytes *)
    destruct (decide (length pre = 62%nat)) as [H62 | H62].
    + rewrite !take_app_length', !lookup_total_app_r in Hcx, Hcy by lia.
      rewrite H62 in Hcx, Hcy. cbn in Hcx, Hcy.
      rewrite Hcx in Hcy. by apply LittleEndian_Uint16_inj in Hcy as [? _].
    + assert (H63 : length pre = 63%nat) by lia.
      rewrite !take_app_le in Hcx, Hcy by lia.
      rewrite (lookup_total_app_l pre _ 62) in Hcx by lia.
      rewrite (lookup_total_app_l pre _ 62) in Hcy by lia.
      rewrite !lookup_total_app_r in Hcx, Hcy by lia.
      rewrite H63 in Hcx, Hcy. cbn in Hcx, Hcy.
      rewrite Hcx in Hcy. by apply LittleEndian_Uint16_inj in Hcy as [_ ?].
Qed.

(** ** Transfer, all outcomes *)

(** X3: [Transfer] returns without error exactly when the payload has at
    most 58 bytes, the port took the whole frame without error and an answer
    with the command of the request came before the timeout; what it returns
    then is the status byte and the payload of that answer. *)
Theorem Transfer_succeeds_iff c p wr ev port0 status pl :
  (Transfer c p wr ev port0).1 = (status, pl, None)
  ↔ (len p ≤ MaxPayloadLen)%nat
    ∧ write_err wr = None
    ∧ bytesWritten wr = packetSize
    ∧ ∃ answer, ev = AnsReceived answer
                ∧ cmd answer = c
                ∧ status = err answer
                ∧ pl = Some (payload answer).
Proof.
  unfold Transfer, Transfer_send.
  destruct (Nat.ltb_spec MaxPayloadLen (len p)) as [Hbig | Hfit]; cbn [fst].
  { split; [discriminate | intros (? & _); lia]. }
  destruct (write_err wr) as [e|]; cbn [fst].
  { split; [discriminate | intros (_ & ? & _); discriminate]. }
  rewrite Transfer_txBuf_length by assumption.
  destruct (Nat.eqb_spec (bytesWritten wr) packetSize) as [Hw | Hw]; cbn [negb fst].
  2:{ split; [discriminate | intros (_ & _ & ? & _); done]. }
  destruct ev as [answer|].
  2:{ cbn [Transfer_select].
      split; [discriminate | intros (_ & _ & _ & ? & ? & _); discriminate]. }
  rewrite Transfer_select_answer.
  destruct (decide (cmd answer = c)) as [Hc | Hc].
  - split.
    + intros [= <- <-]. eauto 10.
    + intros (_ & _ & _ & a & [= <-] & _ & -> & ->). done.
  - split; [discriminate|].
    intros (_ & _ & _ & a & [= <-] & ? & _). done.
Qed.

(** X4: whenever [Transfer] returns an error, the status byte is 0 and the
    payload nil.  A payload of more than 58 bytes is refused with [ErrSize]
    before anything is written; otherwise the port is given the frame once,
    and an error of the port or a short write ends the call with that error
    or [ErrSerial] without waiting for an answer; with the frame written in
    full, a timeout gives [ErrTimeout]. *)
Theorem Transfer_errors c p wr ev port0 :
  let r := (Transfer c p wr ev port0).1 in
  let port1 := (Transfer c p wr ev port0).2 in
  (r.2 ≠ None → r.1 = (Byte.x00, None))
  ∧ ((MaxPayloadLen < len p)%nat → r = (Byte.x00, None, Some ErrSize) ∧ port1 = port0)
  ∧ ((len p ≤ MaxPayloadLen)%nat →
       port1 = port0 ++ [take (bytesWritten wr) (Transfer_txBuf c p)]
       ∧ (∀ e, write_err wr = Some e → r = (Byte.x00, None, Some e))
       ∧ (write_err wr = None → bytesWritten wr ≠ packetSize →
            r = (Byte.x00, None, Some ErrSerial))
       ∧ (write_err wr = None → bytesWritten wr = packetSize → ev = TimeAfter →
            r = (Byte.x00, None, Some ErrTimeout))).
Proof.
  cbv zeta. unfold Transfer, Transfer_send.
  destruct (Nat.ltb_spec MaxPayloadLen (len p)) as [Hbig | Hfit]; cbn [fst snd].
  { split; [done|]. split; [done|]. intros ?. lia. }
  split; [|split; [intros ?; lia|intros _]].
  - destruct (write_err wr) as [e|]; cbn [fst snd]; [done|].
    destruct (negb _); cbn [fst snd]; [done|].
    destruct ev as [answer|]; cbn [Transfer_select]; [|done].
    destruct (negb _); cbn [fst snd]; done.
  - rewrite Transfer_txBuf_length by assumption.
    destruct (write_err wr) as [e|]; cbn [fst snd].
    { split; [done|]. split; [by intros ? [= <-]|]. split; intros ?; done. }
    destruct (Nat.eqb_spec (bytesWritten wr) packetSize) as [Hw | Hw];
      cbn [negb fst snd].
    + split; [done|]. split; [intros ? ?; done|]. split; [intros _ ?; done|].
      by intros _ _ ->.
    + split; [done|]. split; [intros ? ?; done|]. split; [done|].
      intros _ ?. done.
Qed.

(** ** Callbacks and answers along a run *)

Lemma step_callbacks {F} (l : label F) (s s' : system F) :
  step l s = Some s' →
  callbacks (dispatcher s) `prefix_of` callbacks (dispatcher s').
Proof.
  destruct l as [c p | i wr | i | i | msg | cb]; cbn [step]; intros Hstep.
  - by injection Hstep as <-.
  - destruct (callers s !! i) as [[c p | |]|]; try discriminate.
    destruct (Transfer_send c p wr (port s)). by injection Hstep as <-.
  - destruct (callers s !! i) as [[| c |]|]; try discriminate.
    unfold receive_ans in Hstep.
    destruct (at_ (dispatcher s)); try discriminate. by injection Hstep as <-.
  - destruct (callers s !! i) as [[| c |]|]; try discriminate.
    by injection Hstep as <-.
  - unfold receive_rx in Hstep.
    destruct (at_ (dispatcher s)); try discriminate.
    destruct (receive_range _ _ _). by injection Hstep as <-.
  - unfold receive_register in Hstep.
    destruct (at_ (dispatcher s)); try discriminate.
    destruct (cbFunc cb); injection Hstep as <-; cbn; [by apply prefix_app_r|done].
Qed.

Lemma run_callbacks {F} (ls : list (label F)) (s s' : system F) :
  run ls s = Some s' →
  callbacks (dispatcher s) `prefix_of` callbacks (dispatcher s').
Proof.
  revert s. induction ls as [|l ls IH]; intros s; cbn [run].
  - by intros [= <-].
  - destruct (step l s) as [s1|] eqn:E; [|discriminate].
    intros Hrun. etrans; [by eapply step_callbacks | by apply IH].
Qed.

(** X5: a registered callback is never removed.  After any run of the
    goroutines the callbacks registered before are still registered, in the
    same order, and a frame with the command of one of them is handed to it
    with the frame's status byte and payload and is not offered to any
    caller of [Transfer]. *)
Theorem registered_callback_persists {F} (ls : list (label F)) (s s' : system F) c f :
  run ls s = Some s' →
  (c, f) ∈ callbacks (dispatcher s) →
  callbacks (dispatcher s) `prefix_of` callbacks (dispatcher s')
  ∧ (c, f) ∈ callbacks (dispatcher s')
  ∧ ∀ msg, cmd msg = c → at_ (dispatcher s') = AtSelect →
      ∃ s'', step (LRx msg) s' = Some s''
             ∧ Call f (err msg) (payload msg) ∈ called s''
             ∧ at_ (dispatcher s'') = AtSelect
             ∧ callers s'' = callers s'
             ∧ ∀ i, step (LAnswer i) s'' = None.
Proof.
  intros Hrun Hin.
  pose proof (run_callbacks ls s s' Hrun) as Hpre.
  assert (Hin' : (c, f) ∈ callbacks (dispatcher s')).
  { destruct Hpre as [k ->]. apply elem_of_app. by left. }
  split; [exact Hpre|]. split; [exact Hin'|].
  intros msg Hc Hat. cbn [step]. unfold receive_rx.
  rewrite Hat, receive_range_spec. cbv zeta.
  assert (Hhit : (c, f) ∈ filter (λ cb, cb.1 = cmd msg) (callbacks (dispatcher s'))).
  { apply list_elem_of_filter. split; [by rewrite Hc | exact Hin']. }
  destruct (filter _ (callbacks (dispatcher s'))) as [|cb hit] eqn:Ehit.
  { by apply elem_of_nil in Hhit. }
  eexists. split; [reflexivity|]. cbn [called dispatcher at_ callers].
  split; [|split; [reflexivity|split; [reflexivity|]]].
  - apply elem_of_app. right.
    apply (list_elem_of_fmap_2 (λ cb, Call cb.2 (err msg) (payload msg)) _ (c, f)) in Hhit.
    exact Hhit.
  - intros i. cbn [step dispatcher receive_ans at_]. by destruct (_ !! i) as [[]|].
Qed.

(** X6: a caller whose [Transfer] timed out leaves its reply behind.  When
    the late reply then comes in and no callback takes it, the next call of
    [Transfer] receives it as its answer: it fails with [ErrCmdMismatch] when
    the commands differ and returns the late reply as its own when they are
    equal. *)
Theorem stale_reply_after_timeout {F} (s : system F) i c late c2 p2 :
  callers s !! i = Some (InSelect c) →
  at_ (dispatcher s) = AtSelect →
  filter (λ cb, cb.1 = cmd late) (callbacks (dispatcher s)) = [] →
  (len p2 ≤ MaxPayloadLen)%nat →
  let n := length (callers s) in
  ∃ s',
    run [LTimeout i; LRx late; LCall c2 p2; LSend n written; LAnswer n] s = Some s'
    ∧ callers s' !! i = Some (Returned (Byte.x00, None, Some ErrTimeout))
    ∧ callers s' !! n
      = Some (Returned (if decide (cmd late = c2)
                        then (err late, Some (payload late), None)
                        else (Byte.x00, None, Some ErrCmdMismatch))).
Proof.
  intros Hi Hat Hnone Hn n.
  assert (Hlt : (i < length (callers s))%nat) by (by eapply lookup_lt_Some).
  erewrite run_cons by (cbn [step]; rewrite Hi; reflexivity).
  erewrite run_cons.
  2:{ cbn [step dispatcher]. unfold receive_rx.
      rewrite Hat, receive_range_spec. cbv zeta. rewrite Hnone. reflexivity. }
  erewrite run_cons by reflexivity.
  cbn [port dispatcher callers called app fmap list_fmap].
  erewrite run_cons.
  2:{ apply step_send_full; [|exact Hn]. cbn [callers].
      rewrite lookup_app_r by (rewrite length_insert; lia).
      rewrite length_insert. fold n. by rewrite Nat.sub_diag. }
  cbn [port dispatcher callers called].
  erewrite run_cons.
  2:{ apply step_answer; cbn [callers dispatcher at_]; [|reflexivity].
      apply list_lookup_insert_eq. rewrite length_app, length_insert. simpl. lia. }
  eexists. split; [reflexivity|]. cbn [callers].
  rewrite list_insert_insert_eq.
  split.
  - rewrite list_lookup_insert_ne by lia.
    rewrite lookup_app_l by (rewrite length_insert; lia).
    by rewrite list_lookup_insert_eq.
  - rewrite list_lookup_insert_eq by (rewrite length_app, length_insert; simpl; lia).
    by rewrite Transfer_select_answer.
Qed.

(** X7: [RegisterCallback] refuses a nil function with [ErrParam] and
    registers nothing.  With a function, and [receive] in its [select], the
    callback is added behind those registered before: a frame with its
    command then calls the earlier callbacks for that command first and the
    new one last, and is not offered as an answer.  While [receive] holds an
    unanswered frame the registration does not complete. *)
Theorem RegisterCallback_cases {F} (st : receive_state F) c (f : F) :
  RegisterCallback c None st = (Some ErrParam, Some st)
  ∧ (∀ msg, at_ st = AtAnsSend msg → RegisterCallback c (Some f) st = (None, None))
  ∧ (at_ st = AtSelect →
       ∃ st', RegisterCallback c (Some f) st = (None, Some st')
              ∧ callbacks st' = callbacks st ++ [(c, f)]
              ∧ ∀ msg, cmd msg = c →
                  ∃ calls b,
                    receive_range (callbacks st) msg true = (calls, b)
                    ∧ receive_rx msg st'
                      = Some (calls ++ [Call f (err msg) (payload msg)], st')).
Proof.
  split; [reflexivity|]. split.
  - intros msg Hat. unfold RegisterCallback, receive_register. by rewrite Hat.
  - intros Hat. unfold RegisterCallback, receive_register. rewrite Hat.
    cbn [cbFunc cb_cmd]. eexists. split; [reflexivity|]. split; [reflexivity|].
    intros msg Hc. eexists _, _. split; [apply receive_range_spec|].
    unfold receive_rx. cbn [at_ callbacks].
    rewrite receive_range_spec. cbv zeta.
    rewrite filter_app, filter_cons, decide_True, filter_nil by (by rewrite Hc).
    rewrite fmap_app. cbn [fmap list_fmap snd].
    by destruct (filter _ (callbacks st)).
Qed.

(** What [receive] keeps true: a frame it holds for [Transfer] has no
    callback registered for its command. *)
Lemma step_offer_invariant {F} (l : label F) (s s' : system F) :
  step l s = Some s' →
  (∀ m, at_ (dispatcher s) = AtAnsSend m →
        filter (λ cb, cb.1 = cmd m) (callbacks (dispatcher s)) = []) →
  ∀ m, at_ (dispatcher s') = AtAnsSend m →
       filter (λ cb, cb.1 = cmd m) (callbacks (dispatcher s')) = [].
Proof.
  destruct l as [c p | i wr | i | i | msg | cb]; cbn [step]; intros Hstep Hinv m.
  - injection Hstep as <-. apply Hinv.
  - destruct (callers s !! i) as [[c p | |]|]; try discriminate.
    destruct (Transfer_send c p wr (port s)). injection Hstep as <-. apply Hinv.
  - destruct (callers s !! i) as [[| c |]|]; try discriminate.
    unfold receive_ans in Hstep.
    destruct (at_ (dispatcher s)); try discriminate. injection Hstep as <-.
    discriminate.
  - destruct (callers s !! i) as [[| c |]|]; try discriminate.
    injection Hstep as <-. apply Hinv.
  - unfold receive_rx in Hstep.
    destruct (at_ (dispatcher s)); try discriminate.
    rewrite receive_range_spec in Hstep. cbv zeta in Hstep.
    injection Hstep as <-. cbn [dispatcher at_ callbacks].
    destruct (filter _ (callbacks (dispatcher s))) eqn:E; [|discriminate].
    by intros [= <-].
  - unfold receive_register in Hstep.
    destruct (at_ (dispatcher s)) eqn:Eat; try discriminate.
    destruct (cbFunc cb); injection Hstep as <-; cbn; [discriminate|].
    rewrite Eat. discriminate.
Qed.

(** X8: the answer channel only ever carries frames that no callback
    claims.  In every state the goroutines reach after [Open], a frame that
    [receive] offers to [Transfer] has a command for which no callback is
    registered, so a command with a callback is never answered to a caller
    of [Transfer]. *)
Theorem offered_frame_has_no_callback {F} (ls : list (label F)) (s : system F) m :
  run ls opened = Some s →
  at_ (dispatcher s) = AtAnsSend m →
  ∀ cb, cb ∈ callbacks (dispatcher s) → cb.1 ≠ cmd m.
Proof.
  intros Hrun Hat cb Hin Hc.
  assert (Hinv : ∀ (s0 : system F),
            (∀ m, at_ (dispatcher s0) = AtAnsSend m →
                  filter (λ cb, cb.1 = cmd m) (callbacks (dispatcher s0)) = []) →
            run ls s0 = Some s →
            filter (λ cb, cb.1 = cmd m) (callbacks (dispatcher s)) = []).
  { clear Hrun. induction ls as [|l ls IH]; intros s0 H0; cbn [run].
    - intros [= ->]. by apply H0.
    - destruct (step l s0) as [s1|] eqn:E; [|discriminate].
      apply IH. by eapply step_offer_invariant. }
  specialize (Hinv opened). cbn in Hinv.
  assert (Hnil := Hinv ltac:(discriminate) Hrun).
  assert (cb ∈ filter (λ cb, cb.1 = cmd m) (callbacks (dispatcher s)))
    by (by apply list_elem_of_filter).
  rewrite Hnil in *. by eapply elem_of_nil.
Qed.

(** X17: two requests are written as the same frame exactly when they have
    the same command and the same payload bytes; a nil payload and an empty
    one give the same frame. *)
Theorem Transfer_txBuf_inj c1 p1 c2 p2 :
  (len p1 ≤ MaxPayloadLen)%nat →
  (len p2 ≤ MaxPayloadLen)%nat →
  Transfer_txBuf c1 p1 = Transfer_txBuf c2 p2 ↔ c1 = c2 ∧ elems p1 = elems p2.
Proof.
  intros H1 H2.
  assert (Hl1 : length (elems p1) = len p1) by (by destruct p1).
  assert (Hl2 : length (elems p2) = len p2) by (by destruct p2).
  rewrite !Transfer_txBuf_layout by assumption. cbv zeta. split.
  - intros Heq. apply app_inj_1 in Heq as [Hhead _];
      [|by rewrite !frame_head_length].
    unfold frame_head in Hhead. injection Hhead as Hc Hb Hrest.
    split; [exact Hc|].
    apply (f_equal byte.unsigned) in Hb. rewrite !len_byte in Hb by assumption.
    apply app_inj_1 in Hrest as [? _]; [done | lia].
  - intros [-> He].
    assert (Hlen : len p1 = len p2) by (by rewrite <- Hl1, <- Hl2, He).
    assert (Hhead : frame_head c2 p1 = frame_head c2 p2)
      by (unfold frame_head; by rewrite He, Hlen).
    by rewrite Hhead.
Qed.

Lemma Transfer_txBuf_inj_witness :
  (len None ≤ MaxPayloadLen)%nat
  ∧ (len (Some []) ≤ MaxPayloadLen)%nat
  ∧ (Transfer_txBuf Byte.x10 None = Transfer_txBuf Byte.x10 (Some [])
     ↔ Byte.x10 = Byte.x10 ∧ elems None = elems (Some [])).
Proof.
  assert (H1 : (len None ≤ MaxPayloadLen)%nat) by (vm_compute; lia).
  assert (H2 : (len (Some []) ≤ MaxPayloadLen)%nat) by (vm_compute; lia).
  exact (conj H1 (conj H2 (Transfer_txBuf_inj Byte.x10 None Byte.x10 (Some []) H1 H2))).
Defined.

Lemma corrupted_byte_skipped_witness :
  Byte.x00 ≠ Byte.x01
  ∧ length ([Byte.x69; Byte.x10; Byte.x00] ++ Byte.x00
            :: replicate 58 Byte.x00 ++ [Byte.xb1; Byte.x19]) = packetSize
  ∧ serialReaderThread_turn true
      ([Byte.x69; Byte.x10; Byte.x00] ++ Byte.x00
       :: replicate 58 Byte.x00 ++ [Byte.xb1; Byte.x19]) None ≠ Skipped
  ∧ serialReaderThread_turn true
      ([Byte.x69; Byte.x10; Byte.x00] ++ Byte.x01
       :: replicate 58 Byte.x00 ++ [Byte.xb1; Byte.x19]) None = Skipped.
Proof.
  assert (H1 : Byte.x00 ≠ Byte.x01) by discriminate.
  assert (H2 : length ([Byte.x69; Byte.x10; Byte.x00] ++ Byte.x00
                       :: replicate 58 Byte.x00 ++ [Byte.xb1; Byte.x19]) = packetSize)
    by reflexivity.
  assert (H3 : serialReaderThread_turn true
                 ([Byte.x69; Byte.x10; Byte.x00] ++ Byte.x00
                  :: replicate 58 Byte.x00 ++ [Byte.xb1; Byte.x19]) None ≠ Skipped)
    by (vm_compute; discriminate).
  exact (conj H1 (conj H2 (conj H3
           (corrupted_byte_skipped [Byte.x69; Byte.x10; Byte.x00] Byte.x00 Byte.x01
              (replicate 58 Byte.x00 ++ [Byte.xb1; Byte.x19]) None H1 H2 H3)))).
Defined.

Lemma registered_callback_persists_witness :
  run [LRegister {| cb_cmd := Byte.x80; cbFunc := Some 8%nat |}; LCall Byte.x10 None]
      one_callback
  = Some {| port := [];
            dispatcher := {| callbacks := [(Byte.x81, 7%nat); (Byte.x80, 8%nat)];
                             at_ := AtSelect |};
            callers := [Called Byte.x10 None];
            called := [] |}
  ∧ (Byte.x81, 7%nat) ∈ callbacks (dispatcher one_callback)
  ∧ callbacks (dispatcher one_callback)
    `prefix_of` [(Byte.x81, 7%nat); (Byte.x80, 8%nat)].
Proof.
  assert (H2 : (Byte.x81, 7%nat) ∈ callbacks (dispatcher one_callback))
    by apply list_elem_of_here.
  exact (conj eq_refl (conj H2
           (proj1 (registered_callback_persists
                     [LRegister {| cb_cmd := Byte.x80; cbFunc := Some 8%nat |};
                      LCall Byte.x10 None]
                     one_callback _ Byte.x81 7%nat eq_refl H2)))).
Defined.

Lemma stale_reply_after_timeout_witness :
  callers waiting_for_version !! 0%nat = Some (InSelect Byte.x10)
  ∧ at_ (dispatcher waiting_for_version) = AtSelect
  ∧ filter (λ cb : CommandID * nat, cb.1 = cmd version_reply)
           (callbacks (dispatcher waiting_for_version)) = []
  ∧ (len (Some [Byte.x01]) ≤ MaxPayloadLen)%nat
  ∧ ∃ s',
      run [LTimeout 0; LRx version_reply; LCall Byte.x30 (Some [Byte.x01]);
           LSend 1 written; LAnswer 1] waiting_for_version = Some s'
      ∧ callers s' !! 0%nat = Some (Returned (Byte.x00, None, Some ErrTimeout))
      ∧ callers s' !! 1%nat = Some (Returned (Byte.x00, None, Some ErrCmdMismatch)).
Proof.
  assert (H4 : (len (Some [Byte.x01]) ≤ MaxPayloadLen)%nat) by (vm_compute; lia).
  exact (conj eq_refl (conj eq_refl (conj eq_refl (conj H4
           (stale_reply_after_timeout waiting_for_version 0 Byte.x10 version_reply
              Byte.x30 (Some [Byte.x01]) eq_refl eq_refl eq_refl H4))))).
Defined.

Lemma offered_frame_has_no_callback_witness :
  run [LRx version_reply] (@opened nat)
  = Some {| port := [];
            dispatcher := {| callbacks := []; at_ := AtAnsSend version_reply |};
            callers := []; called := [] |}
  ∧ ∀ cb : CommandID * nat, cb ∈ [] → cb.1 ≠ cmd version_reply.
Proof.
  exact (conj eq_refl
           (offered_frame_has_no_callback [LRx version_reply] _ version_reply
              eq_refl eq_refl)).
Defined.

(** ** The ESB router and gateway *)

Import esbbridge.

Lemma bytes_Compare_eq a b : bytes_Compare a b = 0 ↔ a = b.
Proof.
  revert b. induction a as [|x a IH]; intros [|y b]; cbn [bytes_Compare]; try done.
  destruct (Z.ltb_spec (byte.unsigned x) (byte.unsigned y)).
  { split; [done|]. intros [= -> _]. lia. }
  destruct (Z.ltb_spec (byte.unsigned y) (byte.unsigned x)).
  { split; [done|]. intros [= -> _]. lia. }
  assert (x = y) as -> by (apply byte.unsigned_inj; lia).
  rewrite IH. split; [by intros -> | by intros [= ->]].
Qed.

Lemma Byte_eqb_decide (x y : byte) : Byte.eqb x y = bool_decide (x = y).
Proof.
  destruct (decide (x = y)) as [Heq | Hne].
  - by rewrite (Byte.byte_dec_lb Heq), bool_decide_eq_true_2.
  - rewrite bool_decide_eq_false_2 by done.
    destruct (Byte.eqb x y) eqn:E; [|done]. by apply Byte.byte_dec_bl in E.
Qed.

(** C6: [rxCallbackThread] sends an envelope once on the channel of every
    registered listener whose source filter is all zero or equals the
    envelope's source address and whose command filter is 0xFF or equals the
    envelope's command, in the order of registration, and on no other
    channel. *)
Theorem rxCallback_delivery {C} (ls : list (listener C)) (message : EsbMessage) :
  rxCallback_range ls message
  = (λ l, (channel l, message)) <$> filter (λ l, listener_matches l message) ls.
Proof.
  induction ls as [|l ls IH]; [reflexivity|].
  cbn [rxCallback_range]. rewrite filter_cons, IH.
  rewrite !Byte_eqb_decide.
  destruct (decide (listener_matches l message)) as [Hm | Hm];
    unfold listener_matches in Hm.
  - destruct Hm as [Ha Hc].
    replace (bool_decide (l_cmd l = Byte.xff) || bool_decide (l_cmd l = cmd message))
      with true
      by (symmetry; apply orb_true_iff; rewrite !bool_decide_eq_true; tauto).
    replace ((bytes_Compare (addr_slice (sourceAddr l)) (elems (address message)) =? 0)
             || (bytes_Compare (addr_slice (sourceAddr l)) (replicate 5 Byte.x00) =? 0))
      with true
      by (symmetry; apply orb_true_iff; rewrite !Z.eqb_eq, !bytes_Compare_eq; tauto).
    reflexivity.
  - destruct (_ && _) eqn:E; [|reflexivity].
    exfalso. apply Hm.
    apply andb_true_iff in E as [Ec Ea].
    apply orb_true_iff in Ec. rewrite !bool_decide_eq_true in Ec.
    apply orb_true_iff in Ea. rewrite !Z.eqb_eq, !bytes_Compare_eq in Ea.
    tauto.
Qed.

(** The two examples of listener matching: a listener for command 0x05 from
    any address gets an envelope with command 0x05 and not one with 0x06; a
    listener for address 1, 2, 3, 4, 5 gets an envelope from that address and
    not one from 1, 2, 3, 4, 6. *)
Example listener_matching_examples :
  rxCallbackThread [listen_cmd05]
    [rx_packet [Byte.x09; Byte.x08; Byte.x07; Byte.x06; Byte.x05] Byte.x05 []]
  = [(2%nat, {| address := Some [Byte.x09; Byte.x08; Byte.x07; Byte.x06; Byte.x05];
                cmd := Byte.x05; payload := None |})]
  ∧ rxCallbackThread [listen_cmd05]
      [rx_packet [Byte.x09; Byte.x08; Byte.x07; Byte.x06; Byte.x05] Byte.x06 []] = []
  ∧ rxCallbackThread [listen_addr12345]
      [rx_packet [Byte.x01; Byte.x02; Byte.x03; Byte.x04; Byte.x05] Byte.x77 [Byte.x01]]
    = [(3%nat, {| address := Some [Byte.x01; Byte.x02; Byte.x03; Byte.x04; Byte.x05];
                  cmd := Byte.x77; payload := Some [Byte.x01] |})]
  ∧ rxCallbackThread [listen_addr12345]
      [rx_packet [Byte.x01; Byte.x02; Byte.x03; Byte.x04; Byte.x06] Byte.x77 [Byte.x01]]
    = [].
Proof. vm_compute. repeat split; reflexivity. Qed.

(** C5: a receive notification with a payload shorter than six bytes ends
    [rxCallbackThread]: the well-formed packet that is delivered to the
    listeners when it comes alone is not delivered when it comes after the
    short one. *)
Theorem rxCallbackThread_stops_at_short_packet :
  rxCallback_turn [listen_all; listen_cmd05] short_packet = None
  ∧ rxCallbackThread [listen_all; listen_cmd05] [good_packet]
    = [(1%nat, {| address := Some [Byte.x01; Byte.x02; Byte.x03; Byte.x04; Byte.x05];
                  cmd := Byte.x05; payload := Some [Byte.x2a] |});
       (2%nat, {| address := Some [Byte.x01; Byte.x02; Byte.x03; Byte.x04; Byte.x05];
                  cmd := Byte.x05; payload := Some [Byte.x2a] |})]
  ∧ rxCallbackThread [listen_all; listen_cmd05] [short_packet; good_packet] = [].
Proof. vm_compute. repeat split; reflexivity. Qed.

(** Until [Open] has succeeded both calls fail with the not-connected error
    and ask nothing of usbprotocol. *)
Lemma not_connected_fails {C} usb_Transfer (st : state C) targetAddr payload :
  connected st = false →
  Transfer usb_Transfer targetAddr payload st = ((None, Some ErrNotConnected), st)
  ∧ GetFwVersion usb_Transfer st = (Ret (""%string, Some ErrNotConnected), st).
Proof. intros H. unfold Transfer, GetFwVersion. by rewrite H. Qed.

Lemma Close_connected {C} (st : state C) : connected (Close st) = connected st.
Proof. reflexivity. Qed.

(** C4: [Close] does not reset [connected].  After a successful [Open] and a
    [Close], [GetFwVersion] and [Transfer] pass the connection check and hand
    their request to usbprotocol, whereas before [Open] both fail with the
    not-connected error. *)
Theorem Close_keeps_connected :
  connected opened_then_closed = true
  ∧ usb opened_then_closed
    = [UsbOpen "/dev/ttyACM0"; UsbAddListener Byte.x81; UsbClose]
  ∧ GetFwVersion usb_Transfer_ok opened_then_closed
    = (Ret ("1.2.3"%string, None),
       asked (UsbTransfer {| Cmd := Byte.x10; Err := Byte.x00; Payload := None |})
             opened_then_closed)
  ∧ Transfer usb_Transfer_ok testPipelineAddress (Some [Byte.x10]) opened_then_closed
    = ((Some [Byte.x01; Byte.x02; Byte.x03], None),
       asked (UsbTransfer
                {| Cmd := Byte.x30; Err := Byte.x00;
                   Payload := Some [Byte.x6f; Byte.x6f; Byte.x6f; Byte.x6f; Byte.x01;
                                    Byte.x10] |})
             opened_then_closed)
  ∧ GetFwVersion usb_Transfer_ok (@initial nat)
    = (Ret (""%string, Some ErrNotConnected), initial)
  ∧ Transfer usb_Transfer_ok testPipelineAddress (Some [Byte.x10]) (@initial nat)
    = ((None, Some ErrNotConnected), initial).
Proof. vm_compute. repeat split; reflexivity. Qed.

(** C8: [Transfer] with a payload that is nil, empty or longer than 32 bytes
    returns an error and asks nothing of usbprotocol; on an open connection
    the error is the one of the failed payload check.  With 1 to 32 payload
    bytes on an open connection the one request handed to usbprotocol has
    command 0x30 and, as payload, the five address bytes followed by the
    application payload. *)
Theorem Transfer_payload_bounds {C} usb_Transfer (st : state C) targetAddr payload :
  ((payload = None ∨ len payload = 0%nat ∨ (32 < len payload)%nat) →
     ∃ e, Transfer usb_Transfer targetAddr payload st = ((None, Some e), st)
          ∧ (connected st = true →
             e = match payload with
                 | None => ErrPayloadNil
                 | Some p => if (32 <? length p)%nat then ErrPayloadTooLong
                             else ErrPayloadTooShort
                 end))
  ∧ (∀ p, payload = Some p → (1 ≤ length p ≤ 32)%nat → connected st = true →
       ∃ r, Transfer usb_Transfer targetAddr payload st
            = (r, asked (UsbTransfer
                           {| Cmd := UsbCmdTransfer; Err := Byte.x00;
                              Payload := Some (addr_slice targetAddr ++ p) |}) st)
            ∧ UsbCmdTransfer = Byte.x30
            ∧ length (addr_slice targetAddr) = 5%nat).
Proof.
  split.
  - intros Hbad. unfold Transfer.
    destruct (connected st); cbn [negb];
      [|eexists; split; [reflexivity | discriminate]].
    destruct payload as [p|]; [|eexists; split; reflexivity].
    change MaxPayloadSize with 32%nat.
    destruct (Nat.ltb_spec 32 (length p)); [eexists; split; reflexivity|].
    destruct (Nat.ltb_spec (length p) 1); [eexists; split; reflexivity|].
    simpl in Hbad. destruct Hbad as [? | [? | ?]]; [done | lia | lia].
  - intros p -> Hp Hc. unfold Transfer. rewrite Hc. cbn [negb].
    change MaxPayloadSize with 32%nat.
    destruct (Nat.ltb_spec 32 (length p)); [lia|].
    destruct (Nat.ltb_spec (length p) 1); [lia|].
    cbn [Message_zero Err Payload elems app].
    destruct (usb_Transfer _) as [answerMessage [e|]];
      destruct (negb _); eauto.
Qed.

Lemma Transfer_payload_bounds_witness :
  (len (Some []) = 0%nat
   ∧ connected opened_state = true
   ∧ ∃ e, Transfer usb_Transfer_ok testPipelineAddress (Some []) opened_state
          = ((None, Some e), opened_state)
          ∧ e = ErrPayloadTooShort)
  ∧ ((1 ≤ length [Byte.x10] ≤ 32)%nat
     ∧ ∃ r, Transfer usb_Transfer_ok testPipelineAddress (Some [Byte.x10]) opened_state
            = (r, asked (UsbTransfer
                           {| Cmd := UsbCmdTransfer; Err := Byte.x00;
                              Payload := Some (addr_slice testPipelineAddress
                                               ++ [Byte.x10]) |}) opened_state)).
Proof.
  split.
  - split; [reflexivity|]. split; [reflexivity|].
    destruct (proj1 (Transfer_payload_bounds usb_Transfer_ok opened_state
                       testPipelineAddress (Some []))
                    (or_intror (or_introl eq_refl))) as (e & He & Hkind).
    exists e. split; [exact He | exact (Hkind eq_refl)].
  - assert (Hp : (1 ≤ length [Byte.x10] ≤ 32)%nat) by (simpl; lia).
    split; [exact Hp|].
    destruct (proj2 (Transfer_payload_bounds usb_Transfer_ok opened_state
                       testPipelineAddress (Some [Byte.x10]))
                    [Byte.x10] eq_refl Hp eq_refl) as (r & Hr & _).
    exists r. exact Hr.
Defined.

(** ** The router and the gateway, all outcomes *)

(** X9: the envelope [rxCallbackThread] takes from a payload of at least six
    bytes splits it without losing a byte: five address bytes, the command
    byte, and the rest as the message payload, which is nil exactly when the
    payload has six bytes. *)
Theorem rxCallback_message_partition (usbMsg : Message) :
  (6 ≤ len (Payload usbMsg))%nat →
  let m := rxCallback_message usbMsg in
  length (elems (address m)) = 5%nat
  ∧ elems (address m) ++ cmd m :: elems (payload m) = elems (Payload usbMsg)
  ∧ (payload m = None ↔ len (Payload usbMsg) = 6%nat).
Proof.
  intros Hlen m. unfold m, rxCallback_message. cbn [address cmd payload].
  assert (Hp : length (elems (Payload usbMsg)) = len (Payload usbMsg))
    by (by destruct (Payload usbMsg)).
  set (p := elems (Payload usbMsg)) in *.
  split; [|split].
  - cbn [elems]. rewrite length_take. lia.
  - assert (H5 : p !! 5%nat = Some (p !!! 5%nat))
      by (apply list_lookup_lookup_total_lt; lia).
    destruct (Nat.ltb_spec 6 (len (Payload usbMsg))); cbn [elems].
    + by apply take_drop_middle.
    + rewrite <- (take_drop_middle p 5 _ H5) at 3.
      rewrite (drop_ge p 6) by lia. reflexivity.
  - destruct (Nat.ltb_spec 6 (len (Payload usbMsg))); split; try done; lia.
Qed.

Lemma rxCallback_range_matches {C} (ls : list (listener C)) (message : EsbMessage) :
  rxCallback_range ls message
  = (λ l, (channel l, message)) <$> filter (λ l, listener_matches l message) ls.
Proof.
  induction ls as [|l ls IH]; [reflexivity|].
  cbn [rxCallback_range]. rewrite filter_cons, IH, !Byte_eqb_decide.
  destruct (decide (listener_matches l message)) as [Hm | Hm];
    unfold listener_matches in Hm.
  - destruct Hm as [Ha Hc].
    replace (bool_decide (l_cmd l = Byte.xff) || bool_decide (l_cmd l = cmd message))
      with true
      by (symmetry; apply orb_true_iff; rewrite !bool_decide_eq_true; tauto).
    replace ((bytes_Compare (addr_slice (sourceAddr l)) (elems (address message)) =? 0)
             || (bytes_Compare (addr_slice (sourceAddr l)) (replicate 5 Byte.x00) =? 0))
      with true
      by (symmetry; apply orb_true_iff; rewrite !Z.eqb_eq, !bytes_Compare_eq; tauto).
    reflexivity.
  - destruct (_ && _) eqn:E; [|reflexivity].
    exfalso. apply Hm.
    apply andb_true_iff in E as [Ec Ea].
    apply orb_true_iff in Ec. rewrite !bool_decide_eq_true in Ec.
    apply orb_true_iff in Ea. rewrite !Z.eqb_eq, !bytes_Compare_eq in Ea.
    tauto.
Qed.

(** X10: as long as every packet carries at least six payload bytes,
    [rxCallbackThread] handles them all, one after the other: its sends are
    those for the first packet, then those for the second, and so on, each
    packet going to the channels of all the listeners that match its
    envelope. *)
Theorem rxCallbackThread_wellformed {C} (ls : list (listener C)) (ch : list Message) :
  Forall (λ usbMsg, (6 ≤ len (Payload usbMsg))%nat) ch →
  rxCallbackThread ls ch
  = concat ((λ usbMsg,
               (λ l, (channel l, rxCallback_message usbMsg))
                 <$> filter (λ l, listener_matches l (rxCallback_message usbMsg)) ls)
            <$> ch).
Proof.
  induction 1 as [|usbMsg ch Hwf _ IH]; [reflexivity|].
  cbn [rxCallbackThread fmap list_fmap concat]. unfold rxCallback_turn.
  destruct (Nat.ltb_spec (len (Payload usbMsg)) 6); [lia|].
  rewrite IH. f_equal.
  apply rxCallback_range_matches.
Qed.

(** X11: [AddListener] refuses a nil channel with an error and changes
    nothing.  With a channel the listener is added behind those registered
    before and nothing else changes: every envelope is sent to the earlier
    listeners as before, and after them to the new channel exactly when the
    new listener matches. *)
Theorem AddListener_cases {C} (st : state C) a c (ch : C) :
  AddListener a c None st = (Some ErrChannelNil, st)
  ∧ ∃ st',
      AddListener a c (Some ch) st = (None, st')
      ∧ connected st' = connected st
      ∧ usb st' = usb st
      ∧ listeners st'
        = listeners st ++ [{| sourceAddr := a; l_cmd := c; channel := ch |}]
      ∧ ∀ m, rxCallback_range (listeners st') m
             = rxCallback_range (listeners st) m
               ++ (if decide (listener_matches
                                {| sourceAddr := a; l_cmd := c; channel := ch |} m)
                   then [(ch, m)] else []).
Proof.
  split; [reflexivity|]. eexists. split; [reflexivity|].
  cbn [connected usb listeners]. split; [reflexivity|]. split; [reflexivity|].
  split; [reflexivity|]. intros m.
  rewrite !rxCallback_range_matches, filter_app, fmap_app, filter_cons, filter_nil.
  by destruct (decide _).
Qed.

(** X12: [Transfer] of the gateway returns without error exactly when the
    package is connected, the payload is not nil and has 1 to 32 bytes, and
    usbprotocol answers the request (command 0x30, the address followed by
    the payload) with status 0 and no error; it then returns the payload of
    that answer.  A nonzero status in the answer is reported as the error of
    the call whether or not usbprotocol reported an error as well. *)
Theorem Transfer_gateway_succeeds_iff {C} usb_Transfer (st : state C) targetAddr payload pl :
  ((Transfer usb_Transfer targetAddr payload st).1 = (pl, None)
   ↔ connected st = true
     ∧ ∃ p answer,
         payload = Some p
         ∧ (1 ≤ length p ≤ 32)%nat
         ∧ usb_Transfer {| Cmd := UsbCmdTransfer; Err := Byte.x00;
                           Payload := Some (addr_slice targetAddr ++ p) |}
           = (answer, None)
         ∧ Err answer = Byte.x00
         ∧ pl = Payload answer)
  ∧ (connected st = true →
     ∀ p answer e,
       payload = Some p → (1 ≤ length p ≤ 32)%nat →
       usb_Transfer {| Cmd := UsbCmdTransfer; Err := Byte.x00;
                       Payload := Some (addr_slice targetAddr ++ p) |}
       = (answer, e) →
       Err answer ≠ Byte.x00 →
       (Transfer usb_Transfer targetAddr payload st).1
       = (None, Some (ErrTransferAnswer (Err answer)))).
Proof.
  unfold Transfer. change MaxPayloadSize with 32%nat.
  cbn [Message_zero Err Payload elems app].
  split.
  - destruct (connected st); cbn [negb fst];
      [|split; [discriminate | intros [? _]; discriminate]].
    destruct payload as [p|]; cbn [fst];
      [|split; [discriminate | intros (_ & ? & ? & ? & _); discriminate]].
    destruct (Nat.ltb_spec 32 (length p)); cbn [fst].
    { split; [discriminate | intros (_ & ? & ? & [= <-] & ? & _); lia]. }
    destruct (Nat.ltb_spec (length p) 1); cbn [fst].
    { split; [discriminate | intros (_ & ? & ? & [= <-] & ? & _); lia]. }
    destruct (usb_Transfer _) as [answer e] eqn:Eusb.
    rewrite Byte_eqb_decide.
    destruct (decide (Err answer = Byte.x00)) as [Hz | Hz].
    + rewrite bool_decide_eq_true_2 by done. cbn [negb].
      destruct e as [e|]; cbn [fst].
      * split; [discriminate|].
        intros (_ & p' & a' & [= <-] & _ & Heq & _). rewrite Eusb in Heq. discriminate.
      * split.
        -- intros [= <-]. split; [done|]. exists p, answer. repeat split; done || lia.
        -- intros (_ & p' & a' & [= <-] & _ & Heq & _ & ->).
           rewrite Eusb in Heq. by injection Heq as <-.
    + rewrite bool_decide_eq_false_2 by done. cbn [negb fst].
      split; [discriminate|].
      intros (_ & p' & a' & [= <-] & _ & Heq & Hz' & _).
      rewrite Eusb in Heq. injection Heq as <-. done.
  - intros -> p answer e -> Hp Heq Hz. cbn [negb].
    destruct (Nat.ltb_spec 32 (length p)); [lia|].
    destruct (Nat.ltb_spec (length p) 1); [lia|].
    rewrite Heq, Byte_eqb_decide, bool_decide_eq_false_2 by done. reflexivity.
Qed.

(** X13: on a connected package [GetFwVersion] asks usbprotocol once, for
    command 0x10 with a nil payload.  It panics exactly when the answer has
    status 0, no error and fewer than three payload bytes; it returns a
    version exactly when the answer has status 0, no error and at least
    three payload bytes, and the version is then the decimal values of the
    first three bytes separated by dots. *)
Theorem GetFwVersion_cases {C} usb_Transfer (st : state C) :
  connected st = true →
  let req := {| Cmd := UsbCmdVersion; Err := Byte.x00; Payload := None |} in
  (GetFwVersion usb_Transfer st).2 = asked (UsbTransfer req) st
  ∧ ((GetFwVersion usb_Transfer st).1 = Panic
     ↔ Err (usb_Transfer req).1 = Byte.x00
       ∧ (usb_Transfer req).2 = None
       ∧ (len (Payload (usb_Transfer req).1) < 3)%nat)
  ∧ (∀ v, (GetFwVersion usb_Transfer st).1 = Ret (v, None)
          ↔ Err (usb_Transfer req).1 = Byte.x00
            ∧ (usb_Transfer req).2 = None
            ∧ ∃ v0 v1 v2 rest,
                elems (Payload (usb_Transfer req).1) = v0 :: v1 :: v2 :: rest
                ∧ v = (pretty (byte.unsigned v0) +:+ "." +:+
                       pretty (byte.unsigned v1) +:+ "." +:+
                       pretty (byte.unsigned v2))%string).
Proof.
  intros Hc req. unfold GetFwVersion. rewrite Hc. cbn [negb].
  cbn [Message_zero Err Payload]. fold req.
  destruct (usb_Transfer req) as [answer e]. cbn [fst snd].
  rewrite Byte_eqb_decide.
  assert (Hlen : length (elems (Payload answer)) = len (Payload answer))
    by (by destruct (Payload answer)).
  destruct (decide (Err answer = Byte.x00)) as [Hz | Hz].
  2:{ rewrite bool_decide_eq_false_2 by done. cbn [negb fst snd].
      split; [done|]. split; [split; [discriminate | intros [? _]; done]|].
      intros v. split; [discriminate | intros [? _]; done]. }
  rewrite bool_decide_eq_true_2 by done. cbn [negb].
  destruct e as [e|]; cbn [fst snd].
  { split; [done|]. split; [split; [discriminate | intros (_ & ? & _); done]|].
    intros v. split; [discriminate | intros (_ & ? & _); done]. }
  destruct (elems (Payload answer)) as [|v0 [|v1 [|v2 rest]]] eqn:Ep;
    cbn [fst snd length] in *.
  1-3: (split; [done|]; split; [split; [intros _; repeat split; done || lia | done]|];
        intros v; split; [discriminate | intros (_ & _ & ? & ? & ? & ? & ? & _); done]).
  split; [done|]. split; [split; [discriminate | intros (_ & _ & ?); lia]|].
  intros v. split.
  - intros [= <-]. repeat split; try done. by exists v0, v1, v2, rest.
  - intros (_ & _ & ? & ? & ? & ? & [= <- <- <- _] & ->). done.
Qed.

(** X14: [Open] marks the package connected as soon as the device is
    opened, before it registers for receive notifications: when that
    registration fails, [Open] returns its error and the package is
    connected all the same.  When the device cannot be opened the
    connection flag is left as it was.  [Open] never touches the
    listeners. *)
Theorem Open_cases {C} usb_Open usb_AddListener device (st : state C) :
  let e := (Open usb_Open usb_AddListener device st).1 in
  let st' := (Open usb_Open usb_AddListener device st).2 in
  listeners st' = listeners st
  ∧ (e = None ↔ usb_Open device = None ∧ usb_AddListener usbprotocol.CmdRx = None)
  ∧ (∀ e0, usb_Open device = Some e0 →
           e = Some (ErrOpen device e0) ∧ connected st' = connected st
           ∧ usb st' = usb st ++ [UsbOpen device])
  ∧ (usb_Open device = None →
       connected st' = true
       ∧ e = ErrUsb <$> usb_AddListener usbprotocol.CmdRx
       ∧ usb st' = usb st ++ [UsbOpen device; UsbAddListener usbprotocol.CmdRx]).
Proof.
  cbv zeta. unfold Open.
  destruct (usb_Open device) as [e0|]; cbn [fst snd asked listeners connected usb].
  - split; [done|]. split; [split; [discriminate | intros [? _]; done]|].
    split; [by intros ? [= <-]|]. intros ?. done.
  - split; [done|]. split.
    + destruct (usb_AddListener _); cbn; split; try done; intros [_ ?]; done.
    + split; [intros ? ?; done|]. intros _. by rewrite <- app_assoc.
Qed.

(** ** The server *)

Lemma list_inserts_copy (a l : list byte) :
  list_inserts 0 a l = take (length l) a ++ drop (length a) l.
Proof.
  revert a. induction l as [|x l IH]; intros a.
  - by rewrite list_inserts_nil, drop_nil.
  - destruct a as [|y a]; [reflexivity|].
    cbn [list_inserts]. rewrite list_inserts_cons. cbn. by rewrite IH.
Qed.

Lemma listenAddr_slice (a : list byte) :
  addr_slice (server.listenAddr a) = take 5 (a ++ replicate 5 Byte.x00).
Proof.
  unfold server.listenAddr. rewrite list_inserts_copy.
  destruct a as [|? [|? [|? [|? [|? ?]]]]]; reflexivity.
Qed.

(** X15: [Listen] of the server panics on a request without a command byte
    and registers nothing.  Otherwise it registers one listener behind those
    already there, for the first command byte and for the first five bytes
    of the request's address, a shorter address being filled up with zeros.
    A request with an empty address therefore listens to every source
    address, and one with exactly five bytes that are not all zero to that
    address alone. *)
Theorem Listen_registers {C E} (stream_Send : server.EsbMessage → option E)
    (a : list byte) (c : byte) (cs : list byte) (ch : C) lc (st : state C) :
  server.Listen stream_Send {| server.l_Addr := a; server.l_Cmd := [] |} ch lc st
  = (Panic, st)
  ∧ ∃ l,
      (server.Listen stream_Send {| server.l_Addr := a; server.l_Cmd := c :: cs |} ch lc st).2
      = {| connected := connected st; listeners := listeners st ++ [l]; usb := usb st |}
      ∧ channel l = ch
      ∧ l_cmd l = c
      ∧ addr_slice (sourceAddr l) = take 5 (a ++ replicate 5 Byte.x00)
      ∧ (a = [] →
         ∀ m, listener_matches l m ↔ c = Byte.xff ∨ c = cmd m)
      ∧ (length a = 5%nat → a ≠ replicate 5 Byte.x00 →
         ∀ m, listener_matches l m
              ↔ a = elems (address m) ∧ (c = Byte.xff ∨ c = cmd m)).
Proof.
  split; [reflexivity|].
  eexists. split; [reflexivity|]. cbn [channel l_cmd sourceAddr].
  split; [reflexivity|]. split; [reflexivity|].
  split; [apply listenAddr_slice|].
  unfold listener_matches. cbn [sourceAddr l_cmd server.l_Addr].
  rewrite listenAddr_slice.
  split.
  - intros -> m. cbn. tauto.
  - intros Hlen Hnz m.
    rewrite take_app_length' by done. tauto.
Qed.

Lemma Listen_loop_all_sent {E} (stream_Send : server.EsbMessage → option E) todo lc :
  Forall (λ msg, stream_Send (server.Listen_message msg) = None) (take todo lc) →
  server.Listen_loop stream_Send todo lc
  = (server.Listen_message <$> take todo lc,
     if (todo <=? length lc)%nat then server.ListenReturned None
     else server.ListenWaiting).
Proof.
  revert lc. induction todo as [|todo IH]; intros lc Hok; [reflexivity|].
  destruct lc as [|msg lc]; [reflexivity|].
  cbn [take] in Hok. apply Forall_cons in Hok as [Hmsg Hok].
  cbn [server.Listen_loop]. rewrite Hmsg, (IH lc Hok). reflexivity.
Qed.

(** X16: [Listen] forwards at most three messages, in the order they arrive.
    While the stream takes them, it hands over the first three and returns
    without error, or waits for ever after the last one when fewer than
    three arrive; the first message the stream refuses ends the call with
    the stream's error, and nothing after it is forwarded. *)
Theorem Listen_forwards {E} (stream_Send : server.EsbMessage → option E) lc :
  (Forall (λ msg, stream_Send (server.Listen_message msg) = None) (take 3 lc) →
   server.Listen_loop stream_Send 3 lc
   = (server.Listen_message <$> take 3 lc,
      if (3 <=? length lc)%nat then server.ListenReturned None
      else server.ListenWaiting))
  ∧ (∀ pre msg rest e,
       lc = pre ++ msg :: rest →
       (length pre < 3)%nat →
       Forall (λ msg, stream_Send (server.Listen_message msg) = None) pre →
       stream_Send (server.Listen_message msg) = Some e →
       server.Listen_loop stream_Send 3 lc
       = (server.Listen_message <$> (pre ++ [msg]), server.ListenReturned (Some e)))
  ∧ ∃ k, (k ≤ 3)%nat
         ∧ (server.Listen_loop stream_Send 3 lc).1 = server.Listen_message <$> take k lc.
Proof.
  split; [apply Listen_loop_all_sent|]. split.
  - intros pre msg rest e -> Hlen Hpre Hmsg.
    generalize 3%nat, Hlen. clear Hlen.
    induction Hpre as [|m0 pre Hm0 _ IH]; intros todo Hlen.
    + destruct todo; [simpl in Hlen; lia|]. cbn. by rewrite Hmsg.
    + destruct todo; [simpl in Hlen; lia|].
      cbn [app server.Listen_loop]. rewrite Hm0.
      rewrite IH by (simpl in Hlen; lia). reflexivity.
  - generalize 3%nat. intros todo. revert lc.
    induction todo as [|todo IH]; intros lc; [by exists 0%nat|].
    destruct lc as [|msg lc]; [exists 0%nat; split; [lia | reflexivity]|].
    cbn [server.Listen_loop]. cbv zeta.
    destruct (stream_Send _); [exists 1%nat; split; [lia | reflexivity]|].
    destruct (IH lc) as (k & Hk & Heq).
    destruct (server.Listen_loop stream_Send todo lc) as [sent r].
    exists (S k). split; [lia|]. cbn in *. by rewrite Heq.
Qed.

Lemma asked_monotone {C} (x : usb_call) (st : state C) :
  listeners st `prefix_of` listeners (asked x st)
  ∧ (connected st = true → connected (asked x st) = true)
  ∧ usb st `prefix_of` usb (asked x st).
Proof. cbn. split; [done|]. split; [done|]. by apply prefix_app_r. Qed.

Lemma same_monotone {C} (st : state C) :
  listeners st `prefix_of` listeners st
  ∧ (connected st = true → connected st = true)
  ∧ usb st `prefix_of` usb st.
Proof. done. Qed.

(** X18: no call of the package takes anything back.  Whatever calls are
    made and whatever usbprotocol answers, the listeners registered before
    are still registered afterwards, in the same order, a package that was
    connected is still connected, and the requests made to usbprotocol are
    only added to. *)
Theorem api_run_monotone {C} usb_Open usb_AddListener usb_Transfer
    (calls : list (api_call C)) (st : state C) :
  let st' := api_run usb_Open usb_AddListener usb_Transfer calls st in
  listeners st `prefix_of` listeners st'
  ∧ (connected st = true → connected st' = true)
  ∧ usb st `prefix_of` usb st'.
Proof.
  cbv zeta. revert st. induction calls as [|call calls IH]; intros st; [done|].
  cbn [api_run].
  set (st1 := match call with CallOpen _ => _ | _ => _ end).
  assert (H1 : listeners st `prefix_of` listeners st1
               ∧ (connected st = true → connected st1 = true)
               ∧ usb st `prefix_of` usb st1).
  { unfold st1. destruct call as [device | | | a p | a c ch].
    - unfold Open. destruct (usb_Open device); cbn.
      + split; [done|]. split; [done|]. by apply prefix_app_r.
      + split; [done|]. split; [done|]. rewrite <- app_assoc. by apply prefix_app_r.
    - apply asked_monotone.
    - unfold GetFwVersion.
      destruct (negb (connected st)); cbn [snd]; [apply same_monotone|].
      destruct (usb_Transfer _) as [answer e].
      destruct (negb _); cbn [snd]; [apply asked_monotone|].
      destruct e; cbn [snd]; [apply asked_monotone|].
      destruct (elems (Payload answer)) as [|? [|? [|? ?]]]; cbn [snd];
        apply asked_monotone.
    - unfold Transfer.
      destruct (negb (connected st)); cbn [snd]; [apply same_monotone|].
      destruct p as [p|]; cbn [snd]; [|apply same_monotone].
      destruct (_ <? _)%nat; cbn [snd]; [apply same_monotone|].
      destruct (_ <? _)%nat; cbn [snd]; [apply same_monotone|].
      destruct (usb_Transfer _) as [answer e].
      destruct (negb _); cbn [snd]; [apply asked_monotone|].
      destruct e; cbn [snd]; apply asked_monotone.
    - destruct ch as [ch|]; cbn; [|done].
      split; [by apply prefix_app_r | done]. }
  destruct H1 as (Hl1 & Hc1 & Hu1), (IH st1) as (Hl & Hc & Hu).
  split; [by etrans|]. split; [auto | by etrans].
Qed.

Lemma rxCallback_message_partition_witness :
  (6 ≤ len (Payload good_packet))%nat
  ∧ length (elems (address (rxCallback_message good_packet))) = 5%nat
  ∧ elems (address (rxCallback_message good_packet))
    ++ cmd (rxCallback_message good_packet)
       :: elems (payload (rxCallback_message good_packet))
    = elems (Payload good_packet).
Proof.
  assert (H : (6 ≤ len (Payload good_packet))%nat) by (vm_compute; lia).
  exact (conj H (conj (proj1 (rxCallback_message_partition good_packet H))
                      (proj1 (proj2 (rxCallback_message_partition good_packet H))))).
Defined.

Lemma rxCallbackThread_wellformed_witness :
  Forall (λ usbMsg, (6 ≤ len (Payload usbMsg))%nat) [good_packet]
  ∧ rxCallbackThread [listen_all] [good_packet]
    = concat ((λ usbMsg,
                 (λ l, (channel l, rxCallback_message usbMsg))
                   <$> filter (λ l, listener_matches l (rxCallback_message usbMsg))
                              [listen_all])
              <$> [good_packet]).
Proof.
  assert (H : Forall (λ usbMsg, (6 ≤ len (Payload usbMsg))%nat) [good_packet]).
  { apply Forall_cons. split; [vm_compute; lia | apply Forall_nil_2]. }
  exact (conj H (rxCallbackThread_wellformed [listen_all] [good_packet] H)).
Defined.

Lemma GetFwVersion_cases_witness :
  connected opened_state = true
  ∧ (GetFwVersion usb_Transfer_ok opened_state).2
    = asked (UsbTransfer {| Cmd := UsbCmdVersion; Err := Byte.x00; Payload := None |})
            opened_state.
Proof.
  exact (conj eq_refl (proj1 (GetFwVersion_cases usb_Transfer_ok opened_state eq_refl))).
Defined.
